(** * golib/http/client: a shallow embedding of client.go

    The Go code of [src/http/client/client.go] is rendered as Rocq functions
    over an explicit program state: the heap of reader objects reached
    through [io.Reader] interface values, the heap of [http.Header] maps, and
    a trace of the observable events.  Functions of the Go standard library
    and of third-party packages that the file calls ([io.ReadAll],
    [bytes.Buffer], [url.Values.Encode], [http.NewRequest], ...) are rendered
    from their documented behaviour where the code below depends on it, and
    taken as parameters ([Library]) where it does not. *)

From Stdlib Require Import ZArith Lia List Bool.
From Stdlib.Strings Require Import String Ascii Byte.
From stdpp Require Import base tactics option list gmap strings sorting pretty.

Local Open Scope Z_scope.
Local Open Scope string_scope.
Local Open Scope list_scope.

(** ** Data *)

(** Byte slices. *)
Abbreviation bytes := (list byte).

(** Addresses of heap objects (Go pointers). *)
Abbreviation loc := positive.

(** Go [error] values, by dynamic type. *)
#[local] Set Warnings "-register-all".
Inductive error : Type :=
| io_EOF
| errorString (s : string)
| json_UnmarshalTypeError (Value Type_ : string) (Offset : Z) (Struct Field : string)
| json_SyntaxError (msg : string) (Offset : Z)
| echo_HTTPError (Code : Z) (Message : string) (Internal : option error)
| otherError (type_name msg : string).

(** What one [Read] call of an arbitrary stream hands out. *)
Inductive readStep : Type :=
| Data (bs : bytes)
| Fail (e : error).

(** Objects behind [io.Reader] pointers.  [Buffer] is [bytes.Buffer]
    ([buf], [off]); [BytesReader] is [bytes.Reader] ([s], [i]);
    [StringsReader] is [strings.Reader] ([s], [i]); [Stream] is any other
    reader, given by the results of its future [Read] calls and by whether
    [Close] was called on it.  The read offsets never leave [0..len] in Go. *)
Inductive reader : Type :=
| Buffer (buf : bytes) (off : nat)
| BytesReader (s : bytes) (i : nat)
| StringsReader (s : string) (i : nat)
| Stream (script : list readStep) (closed : bool).

(** [io.Reader] interface values, by dynamic type. *)
Inductive ioReader : Type :=
| nilReader
| ptrBuffer (l : loc)
| ptrBytesReader (l : loc)
| ptrStringsReader (l : loc)
| NoBody
| nopCloser (r : ioReader)
| otherReader (l : loc) (closer : bool).

(** [http.Header]: [map[string][]string]. *)
Abbreviation http_Header := (gmap string (list string)).

(** Observable events, kept for the statements about retries. *)
Inductive event : Type :=
| GetBodyCalled
| Sent (body : bytes).

Record state : Type := State {
  readers : gmap loc reader;
  headers : gmap loc http_Header;
  trace : list event
}.

(** ** Effects: state passing with panics *)

Inductive outcome (A : Type) : Type :=
| Ret (a : A) (st : state)
| Panic (msg : string).
Arguments Ret {A} a st.
Arguments Panic {A} msg.

Definition M (A : Type) : Type := state -> outcome A.

Definition ret {A} (a : A) : M A := fun st => Ret a st.

Definition bind {A B} (m : M A) (k : A -> M B) : M B :=
  fun st => match m st with
            | Ret a st' => k a st'
            | Panic msg => Panic msg
            end.

Definition panic {A} (msg : string) : M A := fun _ => Panic msg.

Notation "'let!' x ':=' m 'in' k" := (bind m (fun x => k))
  (at level 10, x name, m at level 100, k at level 200).
Notation "'let!' ( x , y ) ':=' m 'in' k" :=
  (bind m (fun xy => let '(x, y) := xy in k))
  (at level 10, x name, y name, m at level 100, k at level 200).
Notation "m ';;;' k" := (bind m (fun _ => k))
  (at level 100, k at level 200, right associativity).

Definition getReader (l : loc) : M reader :=
  fun st => match readers st !! l with
            | Some o => Ret o st
            | None => Panic "invalid memory address or nil pointer dereference"
            end.

Definition putReader (l : loc) (o : reader) : M unit :=
  fun st => Ret tt (State (<[l := o]> (readers st)) (headers st) (trace st)).

(** [new(T)]: a fresh address holding [o]. *)
Definition allocReader (o : reader) : M loc :=
  fun st => let l := fresh (dom (readers st)) in
            Ret l (State (<[l := o]> (readers st)) (headers st) (trace st)).

Definition emit (e : event) : M unit :=
  fun st => Ret tt (State (readers st) (headers st) (trace st ++ [e])).

(** ** The readers of the Go library *)

Definition bytesOfString (s : string) : bytes := list_byte_of_string s.
Definition stringOfBytes (b : bytes) : string := string_of_list_byte b.

Definition errClosed : error := errorString "read on closed body".

(** [bytes.Buffer.Len] and [bytes.Buffer.Bytes] *)
Definition Buffer_Len (l : loc) : M nat :=
  let! o := getReader l in
  match o with
  | Buffer buf off => ret (length buf - off)%nat
  | _ => panic "not a *bytes.Buffer"
  end.

Definition Buffer_Bytes (l : loc) : M bytes :=
  let! o := getReader l in
  match o with
  | Buffer buf off => ret (drop off buf)
  | _ => panic "not a *bytes.Buffer"
  end.

(** [bytes.Reader.Len]: [if r.i >= len(r.s) { return 0 }; return len(r.s) - r.i] *)
Definition BytesReader_Len (l : loc) : M nat :=
  let! o := getReader l in
  match o with
  | BytesReader s i => ret (if (length s <=? i)%nat then 0 else length s - i)%nat
  | _ => panic "not a *bytes.Reader"
  end.

Definition StringsReader_Len (l : loc) : M nat :=
  let! o := getReader l in
  match o with
  | StringsReader s i =>
      ret (if (String.length s <=? i)%nat then 0 else String.length s - i)%nat
  | _ => panic "not a *strings.Reader"
  end.

(** One [Read] of the results scripted for a stream, into a buffer of
    [p] bytes. *)
Definition script_read (p : nat) (script : list readStep)
  : bytes * option error * list readStep :=
  match script with
  | [] => ([], Some io_EOF, [])
  | Data bs :: rest =>
      (take p bs, None, match drop p bs with [] => rest | d => Data d :: rest end)
  | Fail e :: rest => ([], Some e, rest)
  end.

(** [r.Read(p)] with [len(p) = p], dispatched on the dynamic type. *)
Fixpoint Read (r : ioReader) (p : nat) : M (bytes * option error) :=
  match r with
  | nilReader => panic "invalid memory address or nil pointer dereference"
  | ptrBuffer l =>
      let! o := getReader l in
      match o with
      | Buffer buf off =>
          if (length buf <=? off)%nat then
            (* empty: Reset, then EOF unless len(p) == 0 *)
            putReader l (Buffer [] 0) ;;;
            ret ([], if (p =? 0)%nat then None else Some io_EOF)
          else
            let n := Nat.min p (length buf - off) in
            putReader l (Buffer buf (off + n)) ;;;
            ret (take n (drop off buf), None)
      | _ => panic "not a *bytes.Buffer"
      end
  | ptrBytesReader l =>
      let! o := getReader l in
      match o with
      | BytesReader s i =>
          if (length s <=? i)%nat then ret ([], Some io_EOF)
          else
            let n := Nat.min p (length s - i) in
            putReader l (BytesReader s (i + n)) ;;;
            ret (take n (drop i s), None)
      | _ => panic "not a *bytes.Reader"
      end
  | ptrStringsReader l =>
      let! o := getReader l in
      match o with
      | StringsReader s i =>
          if (String.length s <=? i)%nat then ret ([], Some io_EOF)
          else
            let n := Nat.min p (String.length s - i) in
            putReader l (StringsReader s (i + n)) ;;;
            ret (take n (drop i (bytesOfString s)), None)
      | _ => panic "not a *strings.Reader"
      end
  | NoBody => ret ([], Some io_EOF)
  | nopCloser r' => Read r' p
  | otherReader l _ =>
      let! o := getReader l in
      match o with
      | Stream script closed =>
          if closed then ret ([], Some errClosed)
          else
            let '(chunk, err, script') := script_read p script in
            putReader l (Stream script' false) ;;;
            ret (chunk, err)
      | _ => panic "not a stream"
      end
  end.

(** [rc.Close()] *)
Definition Close (r : ioReader) : M (option error) :=
  match r with
  | nilReader => panic "invalid memory address or nil pointer dereference"
  | NoBody | nopCloser _ => ret None
  | otherReader l true =>
      let! o := getReader l in
      match o with
      | Stream script _ => putReader l (Stream script true) ;;; ret None
      | _ => panic "not a stream"
      end
  | _ => panic "no Close method"
  end.

(** An upper bound on the [Read] calls [r] serves before an error or EOF. *)
Definition script_budget (script : list readStep) : nat :=
  foldr (fun s n => match s with
                    | Data bs => Nat.max 1 (length bs) + n
                    | Fail _ => S n
                    end)%nat
        0%nat script.

Fixpoint budget (r : ioReader) (st : state) : nat :=
  match r with
  | ptrBuffer l =>
      match readers st !! l with
      | Some (Buffer buf off) => length buf - off
      | _ => 0
      end
  | ptrBytesReader l =>
      match readers st !! l with
      | Some (BytesReader s i) => length s - i
      | _ => 0
      end
  | ptrStringsReader l =>
      match readers st !! l with
      | Some (StringsReader s i) => String.length s - i
      | _ => 0
      end
  | nopCloser r' => budget r' st
  | otherReader l _ =>
      match readers st !! l with
      | Some (Stream script _) => script_budget script
      | _ => 0
      end
  | nilReader | NoBody => 0
  end%nat.

(** [io.ReadAll]: [Read] into the free space of [b] until an error; EOF is
    not reported.  The free space is never empty; its exact size (512 to
    start with) only decides how the bytes are split over the calls. *)
Definition readSize : nat := 512.

Fixpoint ReadAll_loop (fuel : nat) (r : ioReader) (b : bytes)
  : M (bytes * option error) :=
  match fuel with
  | O => panic "io.ReadAll: no progress"
  | S fuel' =>
      let! (chunk, err) := Read r readSize in
      let b' := b ++ chunk in
      match err with
      | Some e => ret (b', if e is io_EOF then None else Some e)
      | None => ReadAll_loop fuel' r b'
      end
  end.

Definition ReadAll (r : ioReader) : M (bytes * option error) :=
  fun st => ReadAll_loop (S (budget r st)) r [] st.

(** ** net/http: headers *)

Definition code (c : ascii) : N := N_of_ascii c.
Definition inRange (lo hi : N) (c : ascii) : bool :=
  ((lo <=? code c) && (code c <=? hi))%N.
Definition isLower : ascii -> bool := inRange 97 122.
Definition isUpper : ascii -> bool := inRange 65 90.
Definition isDigit : ascii -> bool := inRange 48 57.
Definition isAlnum (c : ascii) : bool := isLower c || isUpper c || isDigit c.

Definition oneOf (cs : string) (c : ascii) : bool :=
  existsb (Ascii.eqb c) (list_ascii_of_string cs).

(** RFC 7230 token bytes: [httpguts.IsTokenRune], [validHeaderFieldByte]. *)
Definition isTokenByte (c : ascii) : bool :=
  isAlnum c || oneOf "!#$%&'*+-.^_`|~" c.

Definition toUpper (c : ascii) : ascii :=
  if isLower c then ascii_of_N (code c - 32) else c.
Definition toLower (c : ascii) : ascii :=
  if isUpper c then ascii_of_N (code c + 32) else c.

Fixpoint canonicalize (upper : bool) (s : string) : string :=
  match s with
  | EmptyString => EmptyString
  | String c s' =>
      String (if upper then toUpper c else toLower c)
             (canonicalize (Ascii.eqb c "-") s')
  end.

(** [textproto.CanonicalMIMEHeaderKey]: a key with a byte that is not a
    token byte is returned unchanged. *)
Definition CanonicalMIMEHeaderKey (s : string) : string :=
  if forallb isTokenByte (list_ascii_of_string s) then canonicalize true s else s.

(** [make(http.Header)] *)
Definition allocHeader (m : http_Header) : M loc :=
  fun st => let l := fresh (dom (headers st)) in
            Ret l (State (readers st) (<[l := m]> (headers st)) (trace st)).

(** [h.Set(key, value)]; [h] is [None] for the nil map. *)
Definition Header_Set (h : option loc) (key value : string) : M unit :=
  match h with
  | None => panic "assignment to entry in nil map"
  | Some l =>
      fun st =>
        match headers st !! l with
        | Some m =>
            Ret tt (State (readers st)
                          (<[l := <[CanonicalMIMEHeaderKey key := [value]]> m]> (headers st))
                          (trace st))
        | None => Panic "invalid memory address or nil pointer dereference"
        end
  end.

(** [h.Get(key)]: the first value of the key, or the empty string. *)
Definition Header_Get (h : option loc) (key : string) : M string :=
  match h with
  | None => ret ""
  | Some l =>
      fun st =>
        match headers st !! l with
        | Some m =>
            Ret (match m !! CanonicalMIMEHeaderKey key with
                 | Some (v :: _) => v
                 | _ => ""
                 end) st
        | None => Panic "invalid memory address or nil pointer dereference"
        end
  end.

(** ** net/http: requests and responses *)

Record URL : Type := {
  Scheme : string;
  Host : string;
  Path : string;
  RawQuery : string
}.

(** The closures stored in [GetBody], by the place that builds them. *)
Inductive bodyFactory : Type :=
| getNoBody
| getBytes (buf : bytes)
| getBytesSnapshot (s : bytes) (i : nat)
| getStringsSnapshot (s : string) (i : nat).

(** [http.Request], and [client.Request], which embeds a pointer to it. *)
Record Request : Type := {
  Method : string;
  URL_ : URL;
  Header : option loc;
  Body : ioReader;
  GetBody : option bodyFactory;
  ContentLength : Z
}.

Definition with_Header (h : option loc) (r : Request) : Request :=
  {| Method := Method r; URL_ := URL_ r; Header := h; Body := Body r;
     GetBody := GetBody r; ContentLength := ContentLength r |}.
Definition with_Body (b : ioReader) (r : Request) : Request :=
  {| Method := Method r; URL_ := URL_ r; Header := Header r; Body := b;
     GetBody := GetBody r; ContentLength := ContentLength r |}.
Definition with_GetBody (g : option bodyFactory) (r : Request) : Request :=
  {| Method := Method r; URL_ := URL_ r; Header := Header r; Body := Body r;
     GetBody := g; ContentLength := ContentLength r |}.
Definition with_ContentLength (n : Z) (r : Request) : Request :=
  {| Method := Method r; URL_ := URL_ r; Header := Header r; Body := Body r;
     GetBody := GetBody r; ContentLength := n |}.

(** [http.Response], and [client.Response], which embeds a pointer to it. *)
Record Response : Type := {
  StatusCode : Z;
  Response_Body : ioReader
}.

(** [time.Duration]: [int64] nanoseconds. *)
Definition wrap64 (z : Z) : Z := (z + 2 ^ 63) mod 2 ^ 64 - 2 ^ 63.
Definition Second : Z := 1000000000.
Definition Duration_mul (a b : Z) : Z := wrap64 (a * b).
Definition Duration_div (a b : Z) : Z := wrap64 (Z.quot a b).

Inductive cookieJar : Type := jarWithPublicSuffixList.

Record Transport : Type := {
  Dialer_Timeout : Z;
  TLSHandshakeTimeout : Z
}.

Record httpClient : Type := {
  httpClient_Timeout : Z;
  httpClient_Transport : Transport;
  Jar : option cookieJar
}.

(** Modelled from the spec: the package [retry] of this repository
    ([retry.RetryOptions], [retry.Do]) is not among the sources.  Section 4.4
    gives the policy a maximal number of attempts and a predicate for the
    errors worth retrying (the backoff is a wait and changes no result). *)
Record RetryOptions : Type := {
  MaxAttempts : nat;
  Retryable : error -> bool
}.

Record Client : Type := {
  client : httpClient;
  retryOpts : option RetryOptions;
  header : option loc
}.

Record ClientOptions : Type := {
  BaseURL : string;
  Timeout : Z;
  RetryOpts : option RetryOptions;
  Header_ : option loc
}.

(** What client.go calls and the repository does not define: [url.Parse],
    [json.Marshal] on Go values, [json.NewDecoder(r).Decode(v)],
    [http.Client.Do], and the policy [retry.Do] uses for nil options. *)
Class Library : Type := {
  goValue : Type;
  url_Parse : string -> URL + error;
  json_Marshal : goValue -> bytes + error;
  json_Decode : ioReader -> M (option error);
  http_Client_Do : httpClient -> Request -> M (option Response * option error);
  retry_defaults : RetryOptions
}.

(** ** net/url: form encoding *)

(** [url.Values]: [map[string][]string]. *)
Abbreviation Values := (gmap string (list string)).

(** [v.Add(key, value)]: [v[key] = append(v[key], value)] *)
Definition Values_Add (key value : string) (v : Values) : Values :=
  <[key := default [] (v !! key) ++ [value]]> v.

Definition upperhex (n : N) : ascii :=
  match get (N.to_nat n) "0123456789ABCDEF" with
  | Some c => c
  | None => "0"%char
  end.

(** [shouldEscape(c, encodeQueryComponent)]: everything but the unreserved
    bytes is escaped. *)
Definition shouldEscape (c : ascii) : bool :=
  negb (isAlnum c || oneOf "-_.~" c).

(** [url.QueryEscape] *)
Fixpoint QueryEscape (s : string) : string :=
  match s with
  | EmptyString => EmptyString
  | String c s' =>
      (if Ascii.eqb c " " then "+"
       else if shouldEscape c then
         String "%" (String (upperhex (code c / 16)) (String (upperhex (code c mod 16)) ""))
       else String c "")
      +:+ QueryEscape s'
  end.

(** The keys of a map, as [slices.Sort] leaves them: in the order of Go
    strings, bytewise lexicographic ([String.le]). *)
Definition sortedKeys (v : Values) : list string :=
  merge_sort String.le (fst <$> map_to_list v).

(** [v.Encode()]; the [strings.Builder] is the string built so far. *)
Definition Encode (v : Values) : string :=
  if (size v =? 0)%nat then ""
  else
    foldl (fun buf k =>
             let vs := default [] (v !! k) in
             let keyEscaped := QueryEscape k in
             foldl (fun buf x =>
                      (if (0 <? String.length buf)%nat then buf +:+ "&" else buf)
                      +:+ keyEscaped +:+ "=" +:+ QueryEscape x)
                   buf vs)
          "" (sortedKeys v).

(** ** client.go *)

Definition defaultTimeout : Z := 10 * Second.

(** [NewClient(opts *ClientOptions) *Client]; a nil [opts] is [None], and
    so would be a nil result.  [timeout * 3 / 4] is [int64] arithmetic: the
    product wraps around and the quotient truncates. *)
Definition NewClient (opts : option ClientOptions) : option Client :=
  let opts :=
    match opts with
    | None => {| BaseURL := ""; Timeout := 0; RetryOpts := None; Header_ := None |}
    | Some o => o
    end in
  let timeout := Timeout opts in
  let timeout := if (timeout <=? 0)%Z then defaultTimeout else timeout in
  let cookieJar := Some jarWithPublicSuffixList in
  let httpClient :=
    {| httpClient_Timeout := timeout;
       httpClient_Transport :=
         {| Dialer_Timeout := Duration_div (Duration_mul timeout 3) 4;
            TLSHandshakeTimeout := Duration_div (Duration_mul timeout 3) 4 |};
       Jar := cookieJar |} in
  Some {| client := httpClient; retryOpts := RetryOpts opts; header := Header_ opts |}.

Definition isNil (r : ioReader) : bool :=
  match r with nilReader => true | _ => false end.

(** [_, ok := body.(io.ReadCloser)]: does the dynamic type have [Close]? *)
Definition isReadCloser (r : ioReader) : bool :=
  match r with
  | NoBody | nopCloser _ => true
  | otherReader _ closer => closer
  | _ => false
  end.

Definition isNoBody (r : ioReader) : bool :=
  match r with NoBody => true | _ => false end.

(** [rc, ok := body.(io.ReadCloser); if !ok && body != nil { rc = io.NopCloser(body) }] *)
Definition asReadCloser (body : ioReader) : ioReader :=
  if isReadCloser body then body
  else if isNil body then nilReader
  else nopCloser body.

(** [bytes.NewReader(b)] and [strings.NewReader(s)] *)
Definition bytes_NewReader (b : bytes) : M ioReader :=
  let! l := allocReader (BytesReader b 0) in ret (ptrBytesReader l).
Definition strings_NewReader (s : string) : M ioReader :=
  let! l := allocReader (StringsReader s 0) in ret (ptrStringsReader l).

(** The type switch shared by [http.NewRequest] and [SetBody]; [other] is
    the default case. *)
Definition inferLength (body : ioReader) (other : Request -> Request) (req : Request)
  : M Request :=
  match body with
  | ptrBuffer l =>
      let! n := Buffer_Len l in
      let! buf := Buffer_Bytes l in
      ret (with_GetBody (Some (getBytes buf)) (with_ContentLength (Z.of_nat n) req))
  | ptrBytesReader l =>
      let! n := BytesReader_Len l in
      let! snapshot := getReader l in
      match snapshot with
      | BytesReader s i =>
          ret (with_GetBody (Some (getBytesSnapshot s i))
                            (with_ContentLength (Z.of_nat n) req))
      | _ => panic "not a *bytes.Reader"
      end
  | ptrStringsReader l =>
      let! n := StringsReader_Len l in
      let! snapshot := getReader l in
      match snapshot with
      | StringsReader s i =>
          ret (with_GetBody (Some (getStringsSnapshot s i))
                            (with_ContentLength (Z.of_nat n) req))
      | _ => panic "not a *strings.Reader"
      end
  | _ => ret (other req)
  end.

Definition emptyBody (req : Request) : Request :=
  with_GetBody (Some getNoBody) (with_Body NoBody req).

(** [(req *Request) SetBody(body io.Reader)] *)
Definition SetBody (body : ioReader) (req : Request) : M Request :=
  let rc := asReadCloser body in
  let req := with_Body rc req in
  if isNil rc then ret (emptyBody (with_ContentLength 0 req))
  else
    let! req :=
      inferLength body
        (fun req => if negb (isNoBody body) then with_ContentLength (-1) req else req)
        req in
    if (ContentLength req =? 0)%Z then ret (emptyBody req) else ret req.

(** Calling a closure stored in [GetBody]. *)
Definition callGetBody (f : bodyFactory) : M (ioReader * option error) :=
  emit GetBodyCalled ;;;
  match f with
  | getNoBody => ret (NoBody, None)
  | getBytes buf =>
      let! r := bytes_NewReader buf in ret (nopCloser r, None)
  | getBytesSnapshot s i =>
      let! l := allocReader (BytesReader s i) in
      ret (nopCloser (ptrBytesReader l), None)
  | getStringsSnapshot s i =>
      let! l := allocReader (StringsReader s i) in
      ret (nopCloser (ptrStringsReader l), None)
  end.

(** [req.GetBody()] *)
Definition invokeGetBody (req : Request) : M (ioReader * option error) :=
  match GetBody req with
  | None => panic "invalid memory address or nil pointer dereference"
  | Some f => callGetBody f
  end.

Definition quote (s : string) : string :=
  String "034" (s +:+ String "034" "").

(** [validMethod]: a non-empty token. *)
Definition validMethod (method : string) : bool :=
  (0 <? String.length method)%nat && forallb isTokenByte (list_ascii_of_string method).

Section WithLibrary.
Context `{Library}.

(** [http.NewRequest(method, url, body)], with the fields of the request
    that client.go reads or writes: the empty method stands for GET, the
    method must be a token, the URL must parse, the header map is fresh, and
    the body goes through the type switch that [SetBody] copies (its default
    case leaves the content length at 0). *)
Definition http_NewRequest (method url : string) (body : ioReader)
  : M (option Request * option error) :=
  let method := if String.eqb method "" then "GET" else method in
  if negb (validMethod method) then
    ret (None, Some (errorString ("net/http: invalid method " +:+ quote method)))
  else
    match url_Parse url with
    | inr e => ret (None, Some e)
    | inl u =>
        let! h := allocHeader ∅ in
        let req := {| Method := method; URL_ := u; Header := Some h;
                      Body := asReadCloser body; GetBody := None;
                      ContentLength := 0 |} in
        if isNil body then ret (Some req, None)
        else
          let! req := inferLength body (fun req => req) req in
          if bool_decide (is_Some (GetBody req)) && (ContentLength req =? 0)%Z
          then ret (Some (emptyBody req), None)
          else ret (Some req, None)
    end.

(** [(c *Client) NewRequest(method, url string, body io.Reader)] *)
Definition NewRequest (c : Client) (method url : string) (body : ioReader)
  : M (option Request * option error) :=
  let! (req, err) := http_NewRequest method url body in
  match err, req with
  | Some e, _ => ret (None, Some e)
  | None, Some req => ret (Some (with_Header (header c) req), None)
  | None, None => panic "invalid memory address or nil pointer dereference"
  end.

(** [(req *Request) WithJsonBody(body any) error] *)
Definition WithJsonBody (body : goValue) (req : Request)
  : M (Request * option error) :=
  Header_Set (Header req) "Content-Type" "application/json" ;;;
  match json_Marshal body with
  | inr err => ret (req, Some err)
  | inl bs =>
      let! r := bytes_NewReader bs in
      let! req := SetBody r req in
      ret (req, None)
  end.


(** Modelled from the spec: [retry.Do] of the repository's package [retry],
    which is not among the sources.  Section 4.4: attempt; on success stop;
    on a failure that the predicate accepts, with attempts left, attempt
    again; otherwise stop with the last error.  [fn] is the closure with the
    variables it captures ([env]); [n] counts the attempts left after this
    one. *)
Fixpoint retry_loop {E} (fn : E -> M (E * option error)) (retryable : error -> bool)
  (n : nat) (env : E) : M (E * option error) :=
  let! (env, err) := fn env in
  match err with
  | None => ret (env, None)
  | Some e =>
      match n with
      | O => ret (env, Some e)
      | S n' =>
          if retryable e then retry_loop fn retryable n' env
          else ret (env, Some e)
      end
  end.

Definition retry_Do {E} (fn : E -> M (E * option error)) (opts : option RetryOptions)
  (env : E) : M (E * option error) :=
  let opts := default retry_defaults opts in
  retry_loop fn (Retryable opts) (MaxAttempts opts - 1) env.

(** [func (c *Client) Do(req *Request)], returning the response and the
    error.  The closure given to [retry.Do] captures [resp] and [req]: every
    attempt passes the same [req.Request] to [c.client.Do]. *)
Definition Do (c : Client) (req : Request) : M (option Response * option error) :=
  retry_Do
    (fun resp : option Response =>
       let! (httpResp, err) := http_Client_Do (client c) req in
       match err with
       | Some e => ret (resp, Some e)
       | None => ret (httpResp, None)
       end)
    (retryOpts c) None.

End WithLibrary.

(** [(req *Request) SetFormBody(data url.Values)] *)
Definition SetFormBody (data : Values) (req : Request) : M Request :=
  Header_Set (Header req) "Content-Type" "application/x-www-form-urlencoded" ;;;
  let! r := strings_NewReader (Encode data) in
  SetBody r req.

(** [(resp *Response) GetStringBody() (string, error)] *)
Definition GetStringBody (resp : Response) : M (string * option error) :=
  let! (bs, err) := ReadAll (Response_Body resp) in
  match err with
  | Some e => ret ("", Some e)
  | None => ret (stringOfBytes bs, None)
  end.

(** ** Vocabulary of the statements *)

(** The address a reader value reads from, if any. *)
Fixpoint own (r : ioReader) : option loc :=
  match r with
  | ptrBuffer l | ptrBytesReader l | ptrStringsReader l | otherReader l _ => Some l
  | nopCloser r' => own r'
  | nilReader | NoBody => None
  end.

Definition chunks (bs : bytes) : list readStep :=
  match bs with [] => [] | _ => [Data bs] end.

(** What a live reader still has to hand out; [None] for a nil or dangling
    reader and for a closed stream. *)
Fixpoint view (r : ioReader) (st : state) : option (list readStep) :=
  match r with
  | nilReader => None
  | ptrBuffer l =>
      match readers st !! l with
      | Some (Buffer buf off) => Some (chunks (drop off buf))
      | _ => None
      end
  | ptrBytesReader l =>
      match readers st !! l with
      | Some (BytesReader s i) => Some (chunks (drop i s))
      | _ => None
      end
  | ptrStringsReader l =>
      match readers st !! l with
      | Some (StringsReader s i) => Some (chunks (drop i (bytesOfString s)))
      | _ => None
      end
  | NoBody => Some []
  | nopCloser r' => view r' st
  | otherReader l _ =>
      match readers st !! l with
      | Some (Stream script false) => Some script
      | _ => None
      end
  end.

(** Reading a script to its end: the bytes, the error reported (EOF is
    none), and what is left after the step that stopped the reading. *)
Fixpoint drain (script : list readStep) : bytes * option error * list readStep :=
  match script with
  | [] => ([], None, [])
  | Data bs :: rest => let '(b, e, r) := drain rest in (bs ++ b, e, r)
  | Fail e :: rest => ([], if e is io_EOF then None else Some e, rest)
  end.

(** [st'] differs from [st] at most in the object [r] reads from. *)
Definition frame (r : ioReader) (st st' : state) : Prop :=
  headers st' = headers st /\ trace st' = trace st /\
  dom (readers st') = dom (readers st) /\
  forall l, own r <> Some l -> readers st' !! l = readers st !! l.

(** The in-memory sources [SetBody] knows, with the bytes they hold from
    their read position on. *)
Inductive boundedSource (st : state) : ioReader -> bytes -> Prop :=
| bounded_Buffer l buf off :
    readers st !! l = Some (Buffer buf off) ->
    boundedSource st (ptrBuffer l) (drop off buf)
| bounded_BytesReader l s i :
    readers st !! l = Some (BytesReader s i) ->
    boundedSource st (ptrBytesReader l) (drop i s)
| bounded_StringsReader l s i :
    readers st !! l = Some (StringsReader s i) ->
    boundedSource st (ptrStringsReader l) (drop i (bytesOfString s)).

(** The bytes a factory hands out on every call. *)
Definition factoryContent (f : bodyFactory) : bytes :=
  match f with
  | getNoBody => []
  | getBytes buf => buf
  | getBytesSnapshot s i => drop i s
  | getStringsSnapshot s i => drop i (bytesOfString s)
  end.


(** Sources that are neither nil, nor one of the three in-memory readers,
    nor [http.NoBody]: the default case of the type switch. *)
Definition oneShot (body : ioReader) : bool :=
  match body with
  | otherReader _ _ | nopCloser _ => true
  | _ => false
  end.




(** The largest [int64]. *)
Definition MaxInt64 : Z := 2 ^ 63 - 1.

(** The form data of a caller who adds the pairs [ps] one after the other. *)
Definition ofPairs (ps : list (string * string)) : Values :=
  foldl (fun v p => Values_Add p.1 p.2 v) ∅ ps.

(** [key=value], both escaped. *)
Definition escapedPair (p : string * string) : string :=
  QueryEscape p.1 +:+ "=" +:+ QueryEscape p.2.

(** The pairs of a map in the order [Encode] writes them. *)
Definition pairsOf (v : Values) : list (string * string) :=
  k ← sortedKeys v; (fun x => (k, x)) <$> default [] (v !! k).

(** The pairs of a list that have the key [k], in the order of the list. *)
Definition withKey (k : string) (ps : list (string * string)) : list (string * string) :=
  filter (fun p => p.1 = k) ps.

Definition keyLe (p q : string * string) : Prop := String.le p.1 q.1.

(** One pair written to the builder of [Encode]. *)
Definition encodeStep (buf : string) (p : string * string) : string :=
  (if (0 <? String.length buf)%nat then buf +:+ "&" else buf)
  +:+ QueryEscape p.1 +:+ "=" +:+ QueryEscape p.2.


(** ** A stub library and sample data, for closed instances *)

Inductive stubValue : Type :=
| structWithInt (field : string) (n : Z)
| chanValue.

Definition stub_Marshal (v : stubValue) : bytes + error :=
  match v with
  | structWithInt f n => inl (bytesOfString ("{" +:+ quote f +:+ ":" +:+ pretty n +:+ "}"))
  | chanValue => inr (otherError "*json.UnsupportedTypeError" "json: unsupported type: chan int")
  end.

(** Of [url.Parse], the stub keeps the rejection of ASCII control bytes. *)
Definition isCTL (c : ascii) : bool := (code c <? 32)%N || (code c =? 127)%N.

Definition stub_Parse (rawURL : string) : URL + error :=
  if existsb isCTL (list_ascii_of_string rawURL)
  then inr (otherError "*url.Error" "net/url: invalid control character in URL")
  else inl {| Scheme := ""; Host := ""; Path := rawURL; RawQuery := "" |}.

(** A decoder for a target [struct { N int }]: it reads the whole body and
    knows three inputs. *)
Definition stub_Decode (r : ioReader) : M (option error) :=
  let! (bs, err) := ReadAll r in
  match err with
  | Some e => ret (Some e)
  | None =>
      let s := stringOfBytes bs in
      if String.eqb s ("{" +:+ quote "n" +:+ ":1}") then ret None
      else if String.eqb s ("{" +:+ quote "n" +:+ ":" +:+ quote "not-a-number" +:+ "}")
      then ret (Some (json_UnmarshalTypeError "string" "int" 20 "T" "n"))
      else if String.eqb s "{" then ret (Some (otherError "*errors.errorString" "unexpected EOF"))
      else ret (Some (json_SyntaxError "invalid character" 1))
  end.

Definition okResponse : Response := {| StatusCode := 200; Response_Body := NoBody |}.

Definition errConnReset : error := otherError "*net.OpError" "connection reset by peer".

Definition isSent (e : event) : bool :=
  match e with Sent _ => true | GetBodyCalled => false end.

Definition countSent (t : list event) : nat :=
  length (List.filter isSent t).

(** A transport that writes the request body to the wire, reading it from
    [req.Body] as [http.Client.Do] does for the request it is given, and
    fails the first two attempts after the write. *)
Definition stub_Do (_ : httpClient) (req : Request)
  : M (option Response * option error) :=
  fun st =>
    let earlier := countSent (trace st) in
    (let! (bs, _) := ReadAll (Body req) in
     emit (Sent bs) ;;;
     if (earlier <? 2)%nat then ret (None, Some errConnReset)
     else ret (Some okResponse, None)) st.

Definition isNetError (e : error) : bool :=
  match e with
  | otherError "*net.OpError" _ => true
  | _ => false
  end.

Definition stubLibrary : Library := {|
  goValue := stubValue;
  url_Parse := stub_Parse;
  json_Marshal := stub_Marshal;
  json_Decode := stub_Decode;
  http_Client_Do := stub_Do;
  retry_defaults := {| MaxAttempts := 1; Retryable := fun _ => false |}
|}.

Definition sampleURL : URL :=
  {| Scheme := "http"; Host := "example.com"; Path := "/"; RawQuery := "" |}.

(** A request as it comes from [NewRequest] with a nil body and the header
    map at address 1. *)
Definition sampleRequest : Request :=
  {| Method := "POST"; URL_ := sampleURL; Header := Some 1%positive;
     Body := nilReader; GetBody := None; ContentLength := 0 |}.

(** A heap with a [bytes.Buffer] holding "hello", read up to offset 1, at
    address 1, a stream at address 2, and an empty header map. *)
Definition sampleState : state :=
  State {[ 1%positive := Buffer (bytesOfString "hello") 1;
           2%positive := Stream [Data (bytesOfString "hi "); Data (bytesOfString "there")] false ]}
        {[ 1%positive := ∅ ]}
        [].

(** A response whose body is the stream at address 2 of [typeErrorState],
    which holds a JSON object with a string where a number is expected. *)
Definition sampleResponse : Response :=
  {| StatusCode := 200; Response_Body := otherReader 2 true |}.


(** A heap whose stream at address 2 breaks after three bytes. *)
Definition brokenState : state :=
  State {[ 2%positive := Stream [Data (bytesOfString "par"); Fail errConnReset] false ]}
        ∅ [].

Definition optionsWithTimeout (t : Z) : ClientOptions :=
  {| BaseURL := ""; Timeout := t; RetryOpts := None; Header_ := None |}.

Definition sampleClient : Client :=
  {| client := {| httpClient_Timeout := 10 * Second;
                  httpClient_Transport :=
                    {| Dialer_Timeout := 7500000000; TLSHandshakeTimeout := 7500000000 |};
                  Jar := Some jarWithPublicSuffixList |};
     retryOpts := Some {| MaxAttempts := 3; Retryable := isNetError |};
     header := Some 1%positive |}.

(** ** Further functions of client.go and vocabulary *)

(** [(req *Request) GetHttpRequest()] and [(resp *Response) GetHttpResponse()]
    return the embedded pointer; the model identifies the wrapper with what
    it points to. *)
Definition GetHttpRequest (req : Request) : Request := req.
Definition GetHttpResponse (resp : Response) : Response := resp.

(** Requests that agree on what [SetBody] does not assign. *)
Definition sameTarget (a b : Request) : Prop :=
  Method a = Method b /\ URL_ a = URL_ b /\ Header a = Header b.

(** The sources of the first branch and of the three typed cases of
    [SetBody]: nil, [*bytes.Buffer], [*bytes.Reader], [*strings.Reader]. *)
Definition nilOrInMemory (body : ioReader) : bool :=
  match body with
  | nilReader | ptrBuffer _ | ptrBytesReader _ | ptrStringsReader _ => true
  | _ => false
  end.

Definition noGetBodyCalled (st : state) : Prop :=
  Forall (fun e => isSent e = true) (trace st).

(** The bytes a form body is made of: unreserved bytes, the two escapes and
    the two separators. *)
Definition formByte (c : ascii) : bool :=
  isAlnum c || oneOf "-_.~+%=&" c.

Definition withBaseURL (b : string) (o : ClientOptions) : ClientOptions :=
  {| BaseURL := b; Timeout := Timeout o; RetryOpts := RetryOpts o; Header_ := Header_ o |}.

(** The pairs of a map, key by key, in the order the map lists its keys. *)
Definition pairsUnordered (v : Values) : list (string * string) :=
  kv ← map_to_list v; (fun x => (kv.1, x)) <$> kv.2.

(** The bytes [QueryEscape] can write: unreserved bytes and its two escapes. *)
Definition escapedByte (c : ascii) : bool :=
  isAlnum c || oneOf "-_.~+%" c.

Fixpoint countByte (c : ascii) (s : string) : nat :=
  match s with
  | EmptyString => 0
  | String c' s' => (if Ascii.eqb c' c then 1 else 0) + countByte c s'
  end%nat.

(** A heap with a [strings.Reader] over "pong" at address 3. *)
Definition pongState : state :=
  State {[ 3%positive := StringsReader "pong" 0 ]} ∅ [].

(** ** Reading *)

Lemma frame_refl r st : frame r st st.
Proof. by repeat split. Qed.

Lemma frame_trans r st1 st2 st3 :
  frame r st1 st2 -> frame r st2 st3 -> frame r st1 st3.
Proof.
  intros (Hh1 & Ht1 & Hd1 & Hr1) (Hh2 & Ht2 & Hd2 & Hr2).
  repeat split; try congruence.
  intros l Hl. rewrite Hr2, Hr1; auto.
Qed.

Lemma frame_put r l o st :
  own r = Some l -> is_Some (readers st !! l) ->
  frame r st (State (<[l := o]> (readers st)) (headers st) (trace st)).
Proof.
  intros Hown Hsome. repeat split; simpl.
  - by apply dom_insert_lookup_L.
  - intros l' Hl'. rewrite lookup_insert_ne; congruence.
Qed.

Lemma length_bytesOfString s : length (bytesOfString s) = String.length s.
Proof.
  unfold bytesOfString, list_byte_of_string.
  rewrite length_map. induction s; simpl; congruence.
Qed.

Lemma take_drop_min {A} (l : list A) p :
  take (Nat.min p (length l)) l = take p l /\
  drop (Nat.min p (length l)) l = drop p l.
Proof.
  destruct (Nat.le_gt_cases p (length l)) as [Hle|Hgt].
  - by rewrite Nat.min_l.
  - rewrite Nat.min_r by lia. rewrite !take_ge, !drop_ge by lia. done.
Qed.

Lemma script_read_chunks p bs :
  (0 < p)%nat -> (0 < length bs)%nat ->
  script_read p (chunks bs) = (take p bs, None, chunks (drop p bs)).
Proof.
  intros Hp Hbs. destruct bs as [|b bs]; [simpl in Hbs; lia|].
  simpl. f_equal. unfold chunks. destruct (drop p (b :: bs)); reflexivity.
Qed.

Ltac run := unfold bind, ret, panic, getReader, putReader; simpl.

Lemma Read_view r : forall st script p,
  (0 < p)%nat -> view r st = Some script ->
  exists st', Read r p st
              = Ret ((script_read p script).1.1, (script_read p script).1.2) st'
              /\ view r st' = Some (script_read p script).2
              /\ frame r st st'.
Proof.
  induction r as [|l|l|l| |r IH|l c]; intros st script p Hp Hv; simpl in Hv.
  - done.
  - destruct (readers st !! l) as [[buf off| | |]|] eqn:Hl; try done.
    injection Hv as <-. simpl. run. rewrite Hl.
    destruct (Nat.leb_spec (length buf) off) as [Hle|Hlt].
    + rewrite drop_ge by lia. simpl.
      destruct (Nat.eqb_spec p 0) as [->|_]; [lia|].
      eexists. split; [done|]. split.
      * simpl. by rewrite lookup_insert_eq.
      * apply frame_put; [done|by rewrite Hl].
    + assert (Hlen : length (drop off buf) = (length buf - off)%nat) by apply length_drop.
      rewrite script_read_chunks by (rewrite ?Hlen; lia). simpl.
      rewrite <- Hlen. destruct (take_drop_min (drop off buf) p) as [-> Hd].
      eexists. split; [done|]. split.
      * simpl. rewrite lookup_insert_eq. by rewrite <- drop_drop, Hd.
      * apply frame_put; [done|by rewrite Hl].
  - destruct (readers st !! l) as [[| s i | |]|] eqn:Hl; try done.
    injection Hv as <-. simpl. run. rewrite Hl.
    destruct (Nat.leb_spec (length s) i) as [Hle|Hlt].
    + rewrite drop_ge by lia. simpl.
      eexists. split; [done|]. split.
      * by rewrite Hl, drop_ge by lia.
      * apply frame_refl.
    + assert (Hlen : length (drop i s) = (length s - i)%nat) by apply length_drop.
      rewrite script_read_chunks by (rewrite ?Hlen; lia). simpl.
      rewrite <- Hlen. destruct (take_drop_min (drop i s) p) as [-> Hd].
      eexists. split; [done|]. split.
      * simpl. rewrite lookup_insert_eq. by rewrite <- drop_drop, Hd.
      * apply frame_put; [done|by rewrite Hl].
  - destruct (readers st !! l) as [[| | s i |]|] eqn:Hl; try done.
    injection Hv as <-. simpl. run. rewrite Hl.
    pose proof (length_bytesOfString s) as Hs.
    destruct (Nat.leb_spec (String.length s) i) as [Hle|Hlt].
    + rewrite drop_ge by lia. simpl.
      eexists. split; [done|]. split.
      * by rewrite Hl, drop_ge by lia.
      * apply frame_refl.
    + assert (Hlen : length (drop i (bytesOfString s)) = (String.length s - i)%nat)
        by (rewrite length_drop; lia).
      rewrite script_read_chunks by (rewrite ?Hlen; lia). simpl.
      rewrite <- Hlen. destruct (take_drop_min (drop i (bytesOfString s)) p) as [-> Hd].
      eexists. split; [done|]. split.
      * simpl. rewrite lookup_insert_eq. by rewrite <- drop_drop, Hd.
      * apply frame_put; [done|by rewrite Hl].
  - injection Hv as <-. simpl. eexists. split; [done|]. split; [done|apply frame_refl].
  - simpl. apply IH; done.
  - destruct (readers st !! l) as [[| | | sc [|]]|] eqn:Hl; try done.
    injection Hv as <-. simpl. run. rewrite Hl.
    destruct (script_read p sc) as [[chunk err] script'] eqn:Hsr. simpl.
    eexists. split; [done|]. split.
    * simpl. by rewrite lookup_insert_eq.
    * apply frame_put; [done|by rewrite Hl].
Qed.

Lemma budget_view r : forall st script,
  view r st = Some script -> budget r st = script_budget script.
Proof.
  induction r as [|l|l|l| |r IH|l c]; intros st script Hv; simpl in *;
    try done; try (by injection Hv as <-); try (by apply IH).
  - destruct (readers st !! l) as [[buf off| | |]|]; try done.
    injection Hv as <-. rewrite <- (length_drop buf off).
    by destruct (drop off buf); simpl; lia.
  - destruct (readers st !! l) as [[|s i| |]|]; try done.
    injection Hv as <-. rewrite <- (length_drop s i).
    by destruct (drop i s); simpl; lia.
  - destruct (readers st !! l) as [[| |s i|]|]; try done.
    injection Hv as <-. rewrite <- length_bytesOfString, <- length_drop.
    by destruct (drop i (bytesOfString s)); simpl; lia.
  - destruct (readers st !! l) as [[| | |sc [|]]|]; try done.
    by injection Hv as <-.
Qed.

Lemma script_read_progress p script chunk script' :
  (0 < p)%nat -> script_read p script = (chunk, None, script') ->
  (script_budget script' < script_budget script)%nat
  /\ drain script = (chunk ++ (drain script').1.1, (drain script').1.2, (drain script').2).
Proof.
  intros Hp Hsr. destruct script as [|[bs|e] rest]; simpl in Hsr; try done.
  injection Hsr as <- <-. pose proof (take_drop p bs) as Htd.
  pose proof (length_drop bs p) as Hld.
  destruct (drop p bs) as [|d ds] eqn:Hd; simpl in *.
  - rewrite app_nil_r in Htd. rewrite Htd.
    split; [lia|]. by destruct (drain rest) as [[? ?] ?].
  - split; [lia|]. destruct (drain rest) as [[b e] r]; simpl.
    by rewrite <- Htd at 1; rewrite <- app_assoc.
Qed.

Lemma script_read_stop p script chunk e script' :
  script_read p script = (chunk, Some e, script') ->
  chunk = [] /\ drain script = ([], if e is io_EOF then None else Some e, script').
Proof.
  destruct script as [|[bs|e'] rest]; simpl; intros Hsr; try done.
  - by injection Hsr as <- <- <-.
  - by injection Hsr as <- <- <-.
Qed.

Lemma ReadAll_loop_view fuel : forall r st script acc,
  (script_budget script < fuel)%nat -> view r st = Some script ->
  exists st', ReadAll_loop fuel r acc st
              = Ret (acc ++ (drain script).1.1, (drain script).1.2) st'
              /\ view r st' = Some (drain script).2
              /\ frame r st st'.
Proof.
  induction fuel as [|fuel IH]; intros r st script acc Hfuel Hv; [lia|].
  destruct (Read_view r st script readSize) as (st1 & HR & Hv1 & Hf1);
    [unfold readSize; lia|done|].
  simpl. unfold bind. rewrite HR.
  destruct (script_read readSize script) as [[chunk [e|]] script'] eqn:Hsr; simpl in *.
  - apply script_read_stop in Hsr as [-> ->]. simpl.
    exists st1. by rewrite !app_nil_r.
  - apply script_read_progress in Hsr as [Hlt Hdr]; [|unfold readSize; lia].
    destruct (IH r st1 script' (acc ++ chunk)) as (st2 & HL & Hv2 & Hf2); [lia|done|].
    exists st2. rewrite HL, Hdr. simpl. rewrite app_assoc.
    split; [done|]. split; [done|]. by eapply frame_trans.
Qed.

Lemma ReadAll_view r st script :
  view r st = Some script ->
  exists st', ReadAll r st = Ret ((drain script).1.1, (drain script).1.2) st'
              /\ view r st' = Some (drain script).2
              /\ frame r st st'.
Proof.
  intros Hv. unfold ReadAll.
  apply (ReadAll_loop_view _ r st script []); [|done].
  rewrite (budget_view r st script Hv). lia.
Qed.

Lemma Read_dead r : forall st p,
  view r st = None ->
  match Read r p st with
  | Ret (_, Some _) _ => True
  | Ret (_, None) _ => False
  | Panic msg => msg <> "io.ReadAll: no progress"
  end.
Proof.
  induction r as [|l|l|l| |r IH|l c]; intros st p Hv; simpl in *;
    try done; try (by apply IH);
    unfold bind, getReader, panic;
    destruct (readers st !! l) as [[| | |sc []]|]; by simpl.
Qed.

(** [ReadAll] never gives up for lack of progress. *)
Lemma ReadAll_progress r st : ReadAll r st <> Panic "io.ReadAll: no progress".
Proof.
  destruct (view r st) as [script|] eqn:Hv.
  - destruct (ReadAll_view r st script Hv) as (st' & -> & _). done.
  - unfold ReadAll. simpl. unfold bind.
    pose proof (Read_dead r st readSize Hv) as Hd.
    destruct (Read r readSize st) as [[chunk [e|]] st'|msg]; simpl; try done.
    congruence.
Qed.

(** [Close] on a live stream that has a [Close] method marks it closed. *)
Lemma Close_closes l script st :
  readers st !! l = Some (Stream script false) ->
  exists st', Close (otherReader l true) st = Ret None st'
              /\ readers st' !! l = Some (Stream script true).
Proof.
  intros Hl. unfold Close, bind, getReader, putReader, ret. rewrite Hl.
  eexists. split; [done|]. simpl. by rewrite lookup_insert_eq.
Qed.

(** ** Body factories *)

Lemma drain_chunks content : drain (chunks content) = (content, None, []).
Proof. destruct content; [done|]. simpl. by rewrite app_nil_r. Qed.

Lemma ReadAll_chunks r st content :
  view r st = Some (chunks content) ->
  exists st', ReadAll r st = Ret (content, None) st'
              /\ view r st' = Some [] /\ frame r st st'.
Proof.
  intros Hv. destruct (ReadAll_view r st _ Hv) as (st' & HR & Hv' & Hf).
  rewrite drain_chunks in *. by exists st'.
Qed.

Lemma view_frame r1 r2 st st' :
  frame r1 st st' -> (forall l, own r2 = Some l -> own r1 <> Some l) ->
  view r2 st' = view r2 st.
Proof.
  intros (_ & _ & _ & Hr) Hown.
  induction r2 as [|l|l|l| |r IH|l c]; simpl in *; try done;
    try (rewrite Hr by (intros ?; by eapply Hown)); try done.
  by apply IH.
Qed.

Lemma view_extend r st st' script :
  (forall l o, readers st !! l = Some o -> readers st' !! l = Some o) ->
  view r st = Some script -> view r st' = Some script.
Proof.
  intros Hext.
  induction r as [|l|l|l| |r IH|l c]; simpl; try done;
    destruct (readers st !! l) as [o|] eqn:Hl; try done;
    by rewrite (Hext _ _ Hl).
Qed.

Lemma view_own r st script l :
  view r st = Some script -> own r = Some l -> is_Some (readers st !! l).
Proof.
  induction r as [|l'|l'|l'| |r IH|l' c]; simpl; try done;
    intros Hv [= <-]; by destruct (readers st !! l').
Qed.

Lemma fresh_reader_None (m : gmap loc reader) : m !! fresh (dom m) = None.
Proof. apply not_elem_of_dom, is_fresh. Qed.

Lemma callGetBody_fresh f st :
  exists r st',
    callGetBody f st = Ret (r, None) st'
    /\ view r st' = Some (chunks (factoryContent f))
    /\ (forall l, own r = Some l -> readers st !! l = None)
    /\ (forall l o, readers st !! l = Some o -> readers st' !! l = Some o)
    /\ headers st' = headers st
    /\ trace st' = trace st ++ [GetBodyCalled].
Proof.
  pose proof (fresh_reader_None (readers st)) as Hfresh.
  assert (Hext : forall o' l o, readers st !! l = Some o ->
            <[fresh (dom (readers st)) := o']> (readers st) !! l = Some o).
  { intros o' l o Hl. rewrite lookup_insert_ne; [done|congruence]. }
  destruct f as [|buf|s i|s i]; unfold callGetBody, bytes_NewReader, bind, ret,
    emit, allocReader; simpl; eexists _, _; (split; [reflexivity|]); simpl;
    rewrite ?lookup_insert_eq; repeat split; try done; try apply Hext;
    by intros l [= <-].
Qed.

Lemma SetBody_bounded st body content req :
  boundedSource st body content ->
  exists req' f,
    SetBody body req st = Ret req' st
    /\ ContentLength req' = Z.of_nat (length content)
    /\ GetBody req' = Some f /\ factoryContent f = content
    /\ Body req' = (if content is [] then NoBody else nopCloser body)
    /\ Header req' = Header req /\ Method req' = Method req /\ URL_ req' = URL_ req.
Proof.
  intros Hsrc.
  assert (Hfin : forall (a : Request) (f : bodyFactory),
    ContentLength a = Z.of_nat (length content) -> GetBody a = Some f ->
    factoryContent f = content -> Body a = nopCloser body ->
    Header a = Header req -> Method a = Method req -> URL_ a = URL_ req ->
    exists req' f',
      (if (ContentLength a =? 0)%Z
       then fun st : state => Ret (emptyBody a) st
       else fun st : state => Ret a st) st
      = Ret req' st
      /\ ContentLength req' = Z.of_nat (length content)
      /\ GetBody req' = Some f' /\ factoryContent f' = content
      /\ Body req' = (if content is [] then NoBody else nopCloser body)
      /\ Header req' = Header req /\ Method req' = Method req /\ URL_ req' = URL_ req).
  { intros a f HCL HG Hf HB HH HM HU. rewrite HCL.
    destruct content as [|c cs]; simpl.
    - eexists _, getNoBody. by repeat split.
    - eexists _, f. by repeat split. }
  destruct Hsrc as [l buf off Hl|l s i Hl|l s i Hl];
    unfold SetBody, asReadCloser, inferLength, Buffer_Len, Buffer_Bytes,
      BytesReader_Len, StringsReader_Len, bind, ret, getReader; simpl;
    repeat (rewrite Hl; simpl);
    eapply (Hfin (with_GetBody (Some _) (with_ContentLength _
                    (with_Body (nopCloser _) req)))); simpl; try done.
  all: rewrite ?length_drop, ?length_bytesOfString; try done.
  all: match goal with |- context [(?a <=? ?b)%nat] =>
         destruct (Nat.leb_spec a b) as [Hle|Hlt] end; try reflexivity.
  all: by rewrite (proj2 (Nat.sub_0_le _ _) Hle).
Qed.

Lemma boundedSource_extend st st' body content :
  (forall l o, readers st !! l = Some o -> readers st' !! l = Some o) ->
  boundedSource st body content -> boundedSource st' body content.
Proof. intros Hext [l ? ? Hl|l ? ? Hl|l ? ? Hl]; constructor; by apply Hext. Qed.

Lemma boundedSource_own st body content :
  boundedSource st body content ->
  exists l, own body = Some l /\ is_Some (readers st !! l).
Proof. intros [l ? ? Hl|l ? ? Hl|l ? ? Hl]; exists l; by rewrite Hl. Qed.

Lemma boundedSource_frame r st st' body content :
  frame r st st' -> (forall l, own body = Some l -> own r <> Some l) ->
  boundedSource st body content -> boundedSource st' body content.
Proof.
  intros (_ & _ & _ & Hr) Hown Hsrc.
  inversion Hsrc as [l ? ? Hl|l ? ? Hl|l ? ? Hl]; subst.
  - apply bounded_Buffer. rewrite Hr; [done|]. by apply Hown.
  - apply bounded_BytesReader. rewrite Hr; [done|]. by apply Hown.
  - apply bounded_StringsReader. rewrite Hr; [done|]. by apply Hown.
Qed.

(** C1.  A [*bytes.Buffer], [*bytes.Reader] or [*strings.Reader] given to
    [SetBody] leaves the request with a content length equal to the number of
    bytes the source holds from its read position on, and with a [GetBody]
    that returns, on two successive calls, two streams without error; read to
    the end in either order, each of the two hands out exactly those bytes,
    and neither reading consumes the source. *)
Theorem SetBody_bounded_replays st body content req :
  boundedSource st body content ->
  exists req' r1 r2 st1 st2,
    SetBody body req st = Ret req' st
    /\ ContentLength req' = Z.of_nat (length content)
    /\ invokeGetBody req' st = Ret (r1, None) st1
    /\ invokeGetBody req' st1 = Ret (r2, None) st2
    /\ (exists st3 st4,
          ReadAll r1 st2 = Ret (content, None) st3
          /\ ReadAll r2 st3 = Ret (content, None) st4
          /\ boundedSource st4 body content)
    /\ (exists st3 st4,
          ReadAll r2 st2 = Ret (content, None) st3
          /\ ReadAll r1 st3 = Ret (content, None) st4
          /\ boundedSource st4 body content).
Proof.
  intros Hsrc.
  destruct (SetBody_bounded st body content req Hsrc)
    as (req' & f & HS & HCL & HG & Hf & _).
  destruct (callGetBody_fresh f st) as (r1 & st1 & Hc1 & Hv1 & Hn1 & He1 & _).
  destruct (callGetBody_fresh f st1) as (r2 & st2 & Hc2 & Hv2 & Hn2 & He2 & _).
  rewrite Hf in Hv1, Hv2.
  exists req', r1, r2, st1, st2. unfold invokeGetBody. rewrite HG.
  do 4 (split; [done|]).
  pose proof (view_extend r1 st1 st2 _ He2 Hv1) as Hv12.
  assert (Hdiff : forall l, own r1 = Some l -> own r2 <> Some l).
  { intros l H1 H2. apply Hn2 in H2.
    destruct (view_own r1 st1 _ l Hv1 H1) as [o Ho]. congruence. }
  destruct (boundedSource_own st body content Hsrc) as (l0 & Hl0 & [o0 Ho0]).
  assert (Hsrc2 : boundedSource st2 body content).
  { eapply boundedSource_extend; [apply He2|].
    eapply boundedSource_extend; [apply He1|done]. }
  assert (Hb1 : forall l, own body = Some l -> own r1 <> Some l).
  { intros l Hl H1. apply Hn1 in H1. congruence. }
  assert (Hb2 : forall l, own body = Some l -> own r2 <> Some l).
  { intros l Hl H2. apply Hn2 in H2. apply He1 in Ho0. congruence. }
  split.
  - destruct (ReadAll_chunks r1 st2 content Hv12) as (st3 & HR1 & _ & Hf1).
    assert (Hv23 : view r2 st3 = Some (chunks content)).
    { rewrite (view_frame r1 r2 st2 st3 Hf1); [done|]. intros l H2 H1. by eapply Hdiff. }
    destruct (ReadAll_chunks r2 st3 content Hv23) as (st4 & HR2 & _ & Hf2).
    exists st3, st4. do 2 (split; [done|]).
    eapply boundedSource_frame; [apply Hf2|done|].
    eapply boundedSource_frame; [apply Hf1|done|done].
  - destruct (ReadAll_chunks r2 st2 content Hv2) as (st3 & HR2 & _ & Hf2).
    assert (Hv13 : view r1 st3 = Some (chunks content)).
    { rewrite (view_frame r2 r1 st2 st3 Hf2); [done|]. intros l H1 H2. by eapply Hdiff. }
    destruct (ReadAll_chunks r1 st3 content Hv13) as (st4 & HR1 & _ & Hf1).
    exists st3, st4. do 2 (split; [done|]).
    eapply boundedSource_frame; [apply Hf1|done|].
    eapply boundedSource_frame; [apply Hf2|done|done].
Qed.

Lemma SetBody_bounded_replays_sample :
  boundedSource sampleState (ptrBuffer 1) (drop 1 (bytesOfString "hello"))
  /\ exists req' r1 r2 st1 st2,
    SetBody (ptrBuffer 1) sampleRequest sampleState = Ret req' sampleState
    /\ ContentLength req' = Z.of_nat (length (drop 1 (bytesOfString "hello")))
    /\ invokeGetBody req' sampleState = Ret (r1, None) st1
    /\ invokeGetBody req' st1 = Ret (r2, None) st2
    /\ (exists st3 st4,
          ReadAll r1 st2 = Ret (drop 1 (bytesOfString "hello"), None) st3
          /\ ReadAll r2 st3 = Ret (drop 1 (bytesOfString "hello"), None) st4
          /\ boundedSource st4 (ptrBuffer 1) (drop 1 (bytesOfString "hello")))
    /\ (exists st3 st4,
          ReadAll r2 st2 = Ret (drop 1 (bytesOfString "hello"), None) st3
          /\ ReadAll r1 st3 = Ret (drop 1 (bytesOfString "hello"), None) st4
          /\ boundedSource st4 (ptrBuffer 1) (drop 1 (bytesOfString "hello"))).
Proof.
  assert (Hsrc : boundedSource sampleState (ptrBuffer 1)
                   (drop 1 (bytesOfString "hello"))).
  { apply (bounded_Buffer sampleState 1%positive (bytesOfString "hello") 1).
    vm_compute. reflexivity. }
  split; [exact Hsrc|].
  exact (SetBody_bounded_replays sampleState (ptrBuffer 1) _ sampleRequest Hsrc).
Defined.

(** ** One-shot sources *)

Lemma oneShot_asReadCloser body :
  oneShot body = true -> isNil (asReadCloser body) = false.
Proof. by destruct body as [| | | | | |? []]. Qed.

(** C3, as the code has it.  A source of the default case, given to
    [SetBody] on a request that has no body factory, leaves the content
    length at -1 and the body at the source (wrapped in [io.NopCloser] when
    it has no [Close]); no factory is installed, so there is nothing to
    call a first or a second time: invoking [GetBody] is a nil call. *)
Theorem SetBody_oneShot st body req :
  oneShot body = true -> GetBody req = None ->
  exists req',
    SetBody body req st = Ret req' st
    /\ ContentLength req' = (-1)%Z
    /\ Body req' = asReadCloser body
    /\ GetBody req' = None
    /\ invokeGetBody req' st
       = Panic "invalid memory address or nil pointer dereference".
Proof.
  intros Hone HG.
  exists (with_ContentLength (-1) (with_Body (asReadCloser body) req)).
  unfold SetBody. rewrite (oneShot_asReadCloser body Hone).
  unfold invokeGetBody.
  destruct body as [| | | | |r|l c]; try done; simpl; by rewrite HG.
Qed.

Lemma SetBody_oneShot_sample :
  oneShot (otherReader 2 true) = true /\ GetBody sampleRequest = None
  /\ exists req',
    SetBody (otherReader 2 true) sampleRequest sampleState = Ret req' sampleState
    /\ ContentLength req' = (-1)%Z
    /\ Body req' = asReadCloser (otherReader 2 true)
    /\ GetBody req' = None
    /\ invokeGetBody req' sampleState
       = Panic "invalid memory address or nil pointer dereference".
Proof.
  split; [reflexivity|]. split; [reflexivity|].
  apply (SetBody_oneShot sampleState (otherReader 2 true) sampleRequest);
    reflexivity.
Defined.

(** C3, as claimed, fails.  On the sample request a streaming source leaves
    no factory at all, so that no invocation returns an error value; and on
    a request that held an in-memory body before, the factory of that body
    stays in place and answers a second call with a stream and no error. *)
Lemma SetBody_oneShot_no_NotReplayable :
  (exists req',
      SetBody (otherReader 2 true) sampleRequest sampleState = Ret req' sampleState
      /\ GetBody req' = None
      /\ invokeGetBody req' sampleState
         = Panic "invalid memory address or nil pointer dereference")
  /\ (exists req1 req2 r1 r2 st1 st2 st3,
        SetBody (ptrBuffer 1) sampleRequest sampleState = Ret req1 sampleState
        /\ SetBody (otherReader 2 true) req1 sampleState = Ret req2 sampleState
        /\ ContentLength req2 = (-1)%Z
        /\ invokeGetBody req2 sampleState = Ret (r1, None) st1
        /\ invokeGetBody req2 st1 = Ret (r2, None) st2
        /\ ReadAll r2 st2 = Ret (bytesOfString "ello", None) st3).
Proof.
  split.
  - eexists. repeat split; reflexivity.
  - eexists _, _, _, _, _, _, _. repeat split; vm_compute; reflexivity.
Qed.

(** ** JSON bodies *)

Section Json.
Context `{Library}.

Lemma Header_Set_Get h m key value st :
  headers st !! h = Some m ->
  exists st',
    Header_Set (Some h) key value st = Ret tt st'
    /\ headers st' = <[h := <[CanonicalMIMEHeaderKey key := [value]]> m]> (headers st)
    /\ readers st' = readers st /\ trace st' = trace st
    /\ Header_Get (Some h) key st' = Ret value st'.
Proof.
  intros Hm. unfold Header_Set, Header_Get. rewrite Hm.
  eexists. split; [reflexivity|]. simpl. repeat split.
  by rewrite !lookup_insert_eq.
Qed.

Lemma Header_Get_lookup h m key value rest st :
  headers st !! h = Some m ->
  m !! CanonicalMIMEHeaderKey key = Some (value :: rest) ->
  Header_Get (Some h) key st = Ret value st.
Proof. intros Hm Hk. unfold Header_Get. by rewrite Hm, Hk. Qed.

(** C5.  When [json.Marshal] accepts the value, [WithJsonBody] on a request
    with a header map returns no error and leaves a request whose
    [Content-Type] header reads [application/json] and whose content length
    is the number of bytes of the serialized payload. *)
Theorem WithJsonBody_content_type_and_length (v : goValue) bs req h m st :
  json_Marshal v = inl bs ->
  Header req = Some h -> headers st !! h = Some m ->
  exists req' st',
    WithJsonBody v req st = Ret (req', None) st'
    /\ Header_Get (Header req') "Content-Type" st' = Ret "application/json" st'
    /\ ContentLength req' = Z.of_nat (length bs).
Proof.
  intros Hbs Hh Hm.
  destruct (Header_Set_Get h m "Content-Type" "application/json" st Hm)
    as (st1 & HS & Hh1 & Hr1 & Ht1 & HG1).
  set (l := fresh (dom (readers st1))).
  set (st2 := State (<[l := BytesReader bs 0]> (readers st1)) (headers st1) (trace st1)).
  assert (Hsrc : boundedSource st2 (ptrBytesReader l) (drop 0 bs)).
  { constructor. simpl. by rewrite lookup_insert_eq. }
  destruct (SetBody_bounded st2 _ _ req Hsrc)
    as (req' & f & HSB & HCL & _ & _ & _ & HH & _).
  exists req', st2.
  unfold WithJsonBody, bind. rewrite Hh, HS, Hbs.
  unfold bytes_NewReader, bind, allocReader, ret. fold l. fold st2.
  rewrite HSB. split; [done|]. split; [|done].
  rewrite HH, Hh. eapply Header_Get_lookup.
  - simpl. rewrite Hh1. apply lookup_insert_eq.
  - apply lookup_insert_eq.
Qed.

(** C9.  When [json.Marshal] rejects the value, [WithJsonBody] returns its
    error and the request as it was (body, factory and content length
    untouched), but the header map the request points to already has
    [Content-Type] set to [application/json]; the readers are untouched. *)
Theorem WithJsonBody_failure_leaves_content_type (v : goValue) err req h m st :
  json_Marshal v = inr err ->
  Header req = Some h -> headers st !! h = Some m ->
  exists st',
    WithJsonBody v req st = Ret (req, Some err) st'
    /\ headers st' = <[h := <["Content-Type" := ["application/json"]]> m]> (headers st)
    /\ Header_Get (Header req) "Content-Type" st' = Ret "application/json" st'
    /\ readers st' = readers st.
Proof.
  intros Herr Hh Hm.
  destruct (Header_Set_Get h m "Content-Type" "application/json" st Hm)
    as (st1 & HS & Hh1 & Hr1 & Ht1 & HG1).
  exists st1. unfold WithJsonBody, bind. rewrite Hh, HS, Herr.
  split; [done|]. split; [exact Hh1|]. split; [exact HG1|exact Hr1].
Qed.


End Json.

Lemma WithJsonBody_nil_header_panics `{Library} (v : goValue) req st :
  Header req = None ->
  WithJsonBody v req st = Panic "assignment to entry in nil map".
Proof. intros Hh. unfold WithJsonBody, bind. by rewrite Hh. Qed.

Lemma WithJsonBody_content_type_and_length_sample :
  let bs := bytesOfString ("{" +:+ quote "a" +:+ ":1}") in
  @json_Marshal stubLibrary (structWithInt "a" 1) = inl bs
  /\ Header sampleRequest = Some 1%positive
  /\ headers sampleState !! 1%positive = Some ∅
  /\ exists req' st',
    @WithJsonBody stubLibrary (structWithInt "a" 1) sampleRequest sampleState
    = Ret (req', None) st'
    /\ Header_Get (Header req') "Content-Type" st' = Ret "application/json" st'
    /\ ContentLength req' = Z.of_nat (length bs).
Proof.
  assert (H1 : @json_Marshal stubLibrary (structWithInt "a" 1)
               = inl (bytesOfString ("{" +:+ quote "a" +:+ ":1}")))
    by (vm_compute; reflexivity).
  assert (H2 : Header sampleRequest = Some 1%positive) by reflexivity.
  assert (H3 : headers sampleState !! 1%positive = Some (∅ : http_Header))
    by (vm_compute; reflexivity).
  split; [exact H1|]. split; [exact H2|]. split; [exact H3|].
  exact (@WithJsonBody_content_type_and_length stubLibrary _ _ _ _ _ _ H1 H2 H3).
Defined.

Lemma WithJsonBody_failure_leaves_content_type_sample :
  let err := otherError "*json.UnsupportedTypeError" "json: unsupported type: chan int" in
  @json_Marshal stubLibrary chanValue = inr err
  /\ Header sampleRequest = Some 1%positive
  /\ headers sampleState !! 1%positive = Some ∅
  /\ exists st',
    @WithJsonBody stubLibrary chanValue sampleRequest sampleState
    = Ret (sampleRequest, Some err) st'
    /\ headers st'
       = <[1%positive := <["Content-Type" := ["application/json"]]> ∅]> (headers sampleState)
    /\ Header_Get (Header sampleRequest) "Content-Type" st' = Ret "application/json" st'
    /\ readers st' = readers sampleState.
Proof.
  assert (H1 : @json_Marshal stubLibrary chanValue
               = inr (otherError "*json.UnsupportedTypeError"
                                 "json: unsupported type: chan int"))
    by reflexivity.
  assert (H2 : Header sampleRequest = Some 1%positive) by reflexivity.
  assert (H3 : headers sampleState !! 1%positive = Some (∅ : http_Header))
    by (vm_compute; reflexivity).
  split; [exact H1|]. split; [exact H2|]. split; [exact H3|].
  exact (@WithJsonBody_failure_leaves_content_type stubLibrary _ _ _ _ _ _ H1 H2 H3).
Defined.


(** ** Client construction *)

Lemma wrap64_id z : (- 2 ^ 63 <= z < 2 ^ 63)%Z -> wrap64 z = z.
Proof. intros Hz. unfold wrap64. rewrite Z.mod_small; lia. Qed.

Lemma three_quarters t :
  (0 < t)%Z -> (3 * t <= MaxInt64)%Z ->
  Duration_div (Duration_mul t 3) 4 = (3 * t / 4)%Z.
Proof.
  unfold MaxInt64, Duration_div, Duration_mul. intros Hpos Hmax.
  rewrite (wrap64_id (t * 3)) by lia.
  rewrite Z.quot_div_nonneg by lia.
  assert (0 <= t * 3 / 4 <= t * 3)%Z.
  { split; [apply Z.div_pos; lia|]. apply Z.div_le_upper_bound; lia. }
  rewrite wrap64_id by lia. f_equal. lia.
Qed.

(** C10, as the code has it.  [NewClient] returns a client for every
    argument.  With nil options or a timeout that is not positive the overall
    timeout is 10 seconds and the two sub-timeouts are 7.5 seconds; a
    positive timeout is taken as given.  The two sub-timeouts are always
    equal, and while three times the overall timeout fits in an [int64]
    they are its three quarters, rounded down to the nanosecond. *)
Theorem NewClient_timeouts (opts : option ClientOptions) :
  exists c,
    NewClient opts = Some c
    /\ let t := httpClient_Timeout (client c) in
       let tr := httpClient_Transport (client c) in
       (0 < t)%Z
       /\ Dialer_Timeout tr = TLSHandshakeTimeout tr
       /\ ((opts = None \/ exists o, opts = Some o /\ (Timeout o <= 0)%Z) ->
           t = 10000000000%Z /\ Dialer_Timeout tr = 7500000000%Z)
       /\ (forall o, opts = Some o -> (0 < Timeout o)%Z -> t = Timeout o)
       /\ ((3 * t <= MaxInt64)%Z ->
           Dialer_Timeout tr = (3 * t / 4)%Z
           /\ (4 * Dialer_Timeout tr <= 3 * t < 4 * Dialer_Timeout tr + 4)%Z).
Proof.
  eexists. split; [reflexivity|]. simpl.
  set (o := match opts with Some o => o | None => _ end).
  assert (Hpos : (0 < (if (Timeout o <=? 0)%Z then defaultTimeout else Timeout o))%Z).
  { destruct (Z.leb_spec (Timeout o) 0); [by vm_compute|lia]. }
  split; [exact Hpos|]. split; [reflexivity|]. split; [|split].
  - intros Hdef.
    assert (Hle : (Timeout o <= 0)%Z).
    { destruct Hdef as [->|(o' & -> & Ho')]; [by vm_compute|done]. }
    apply Z.leb_le in Hle. rewrite Hle. by vm_compute.
  - intros o' -> Ho'. subst o.
    destruct (Z.leb_spec (Timeout o') 0); [lia|done].
  - intros Hfit. rewrite three_quarters by done.
    split; [done|].
    pose proof (Z.div_mod (3 * (if (Timeout o <=? 0)%Z then defaultTimeout else Timeout o)) 4).
    pose proof (Z.mod_pos_bound (3 * (if (Timeout o <=? 0)%Z then defaultTimeout else Timeout o)) 4).
    lia.
Qed.

Lemma NewClient_timeouts_sample :
  exists c,
    NewClient (Some (optionsWithTimeout 2000000001)) = Some c
    /\ httpClient_Timeout (client c) = 2000000001%Z
    /\ Dialer_Timeout (httpClient_Transport (client c)) = 1500000000%Z
    /\ TLSHandshakeTimeout (httpClient_Transport (client c)) = 1500000000%Z.
Proof.
  destruct (NewClient_timeouts (Some (optionsWithTimeout 2000000001)))
    as (c & Hc & _ & Heq & _ & Hpos & Hfit).
  exists c. split; [exact Hc|].
  assert (Ht : httpClient_Timeout (client c) = 2000000001%Z).
  { apply (Hpos (optionsWithTimeout 2000000001)); [reflexivity|by vm_compute]. }
  split; [exact Ht|].
  assert (Hd : Dialer_Timeout (httpClient_Transport (client c)) = 1500000000%Z).
  { rewrite (proj1 (Hfit ltac:(rewrite Ht; by vm_compute))), Ht. reflexivity. }
  split; [exact Hd|]. rewrite <- Heq. exact Hd.
Defined.

(** C10, as claimed, fails.  With an overall timeout of one nanosecond the
    sub-timeouts are zero, and with one of [2^62] nanoseconds the product
    by three wraps around and the sub-timeouts are negative: in neither
    case are they three quarters of the timeout in effect. *)
Lemma NewClient_subtimeouts_not_three_quarters :
  (exists c,
      NewClient (Some (optionsWithTimeout 1)) = Some c
      /\ httpClient_Timeout (client c) = 1%Z
      /\ Dialer_Timeout (httpClient_Transport (client c)) = 0%Z
      /\ TLSHandshakeTimeout (httpClient_Transport (client c)) = 0%Z)
  /\ (exists c,
      NewClient (Some (optionsWithTimeout (2 ^ 62))) = Some c
      /\ httpClient_Timeout (client c) = (2 ^ 62)%Z
      /\ Dialer_Timeout (httpClient_Transport (client c)) = (- 2 ^ 60)%Z
      /\ TLSHandshakeTimeout (httpClient_Transport (client c)) = (- 2 ^ 60)%Z).
Proof.
  split; eexists; (split; [reflexivity|]); repeat split; by vm_compute.
Qed.

(** ** Request construction *)

Section NewRequest.
Context `{Library}.

(** C7, as the code has it.  [NewRequest] takes the empty method for GET.
    It fails, returning no request and the library's error and leaving the
    state as it was, when the method (after that default) is not a token or
    when [url.Parse] rejects the URL; with a valid method, a URL that parses
    and a nil body it returns a request with that method and URL and with the
    client's header map. *)
Theorem NewRequest_validation (c : Client) (method url : string) (body : ioReader) st :
  let method' := if String.eqb method "" then "GET" else method in
  (validMethod method' = false \/ (exists e, url_Parse url = inr e) ->
   exists e, NewRequest c method url body st = Ret (None, Some e) st)
  /\ (forall u, validMethod method' = true -> url_Parse url = inl u ->
      exists req st',
        NewRequest c method url nilReader st = Ret (Some req, None) st'
        /\ Method req = method' /\ URL_ req = u /\ Header req = header c
        /\ Body req = nilReader /\ GetBody req = None /\ ContentLength req = 0%Z).
Proof.
  intros method'. split.
  - intros Hbad. unfold NewRequest, http_NewRequest, bind. fold method'.
    destruct (validMethod method') eqn:Hm; simpl; [|by eexists].
    destruct Hbad as [Hbad|[e He]]; [done|]. rewrite He. by eexists.
  - intros u Hm Hu. unfold NewRequest, http_NewRequest, bind. fold method'.
    rewrite Hm, Hu. simpl. eexists _, _. by repeat split.
Qed.

End NewRequest.

Lemma NewRequest_validation_sample :
  (exists e, @NewRequest stubLibrary sampleClient "GE T" "http://example.com/"
               (ptrBuffer 1) sampleState = Ret (None, Some e) sampleState)
  /\ (exists e, @NewRequest stubLibrary sampleClient "GET" (String "010" "http://example.com/")
               (ptrBuffer 1) sampleState = Ret (None, Some e) sampleState)
  /\ (exists req st',
        @NewRequest stubLibrary sampleClient "" "http://example.com/" nilReader sampleState
        = Ret (Some req, None) st'
        /\ Method req = "GET").
Proof.
  split; [|split].
  - apply (proj1 (@NewRequest_validation stubLibrary sampleClient "GE T"
                    "http://example.com/" (ptrBuffer 1) sampleState)).
    left. reflexivity.
  - apply (proj1 (@NewRequest_validation stubLibrary sampleClient "GET"
                    (String "010" "http://example.com/") (ptrBuffer 1) sampleState)).
    right. eexists. reflexivity.
  - destruct (proj2 (@NewRequest_validation stubLibrary sampleClient ""
                       "http://example.com/" nilReader sampleState)
                _ eq_refl eq_refl) as (req & st' & HN & HM & _).
    exists req, st'. split; [exact HN|exact HM].
Defined.

(** C7, as claimed, fails: with the empty method and a URL that parses,
    [NewRequest] returns a request, of method GET, and no error. *)
Lemma NewRequest_empty_method_accepted :
  exists req st',
    @NewRequest stubLibrary sampleClient "" "http://example.com/" nilReader sampleState
    = Ret (Some req, None) st'
    /\ Method req = "GET" /\ Header req = Some 1%positive.
Proof. eexists _, _. repeat split. Qed.

(** ** Reading a response *)

(** C8, as the code has it.  On a response whose body is live,
    [GetStringBody] reads the stream to its end or to its first error, once:
    it returns the bytes read as a string and no error in the first case,
    the empty string and the error in the second, and leaves the stream at
    the step after the one that stopped the reading.  Nothing but the stream
    changes; in particular the stream is not closed, in either case. *)
Theorem GetStringBody_reads_all resp st script :
  view (Response_Body resp) st = Some script ->
  exists st',
    GetStringBody resp st
    = Ret (match (drain script).1.2 with
           | None => (stringOfBytes (drain script).1.1, None)
           | Some e => ("", Some e)
           end) st'
    /\ view (Response_Body resp) st' = Some (drain script).2
    /\ frame (Response_Body resp) st st'
    /\ (forall l c, Response_Body resp = otherReader l c ->
        readers st' !! l = Some (Stream (drain script).2 false)).
Proof.
  intros Hv.
  destruct (ReadAll_view _ _ _ Hv) as (st' & HR & Hv' & Hf).
  exists st'. unfold GetStringBody, bind. rewrite HR.
  split; [by destruct (drain script).1.2|].
  split; [done|]. split; [done|].
  intros l c Hb. rewrite Hb in Hv'. simpl in Hv'.
  by destruct (readers st' !! l) as [[| | |sc []]|]; simplify_eq.
Qed.

Lemma GetStringBody_reads_all_sample :
  view (Response_Body sampleResponse) sampleState
  = Some [Data (bytesOfString "hi "); Data (bytesOfString "there")]
  /\ exists st',
    GetStringBody sampleResponse sampleState = Ret ("hi there", None) st'
    /\ readers st' !! 2%positive = Some (Stream [] false).
Proof.
  assert (Hv : view (Response_Body sampleResponse) sampleState
               = Some [Data (bytesOfString "hi "); Data (bytesOfString "there")])
    by (vm_compute; reflexivity).
  split; [exact Hv|].
  destruct (GetStringBody_reads_all sampleResponse sampleState _ Hv)
    as (st' & HG & _ & _ & Hopen).
  exists st'. split; [exact HG|]. exact (Hopen 2%positive true eq_refl).
Defined.

(** C8, as claimed, fails: after [GetStringBody] the body has not been
    closed, neither when the reading reached the end of the stream nor when
    it stopped at an error. *)
Lemma GetStringBody_does_not_close :
  (exists st',
      GetStringBody sampleResponse sampleState = Ret ("hi there", None) st'
      /\ readers st' !! 2%positive = Some (Stream [] false))
  /\ (exists st',
      GetStringBody sampleResponse brokenState = Ret ("", Some errConnReset) st'
      /\ readers st' !! 2%positive = Some (Stream [] false)).
Proof. split; eexists; split; vm_compute; reflexivity. Qed.

(** ** Form bodies *)

Lemma string_app_cons c (a b : string) : String c a +:+ b = String c (a +:+ b).
Proof. reflexivity. Qed.

Lemma string_app_nil (b : string) : "" +:+ b = b.
Proof. reflexivity. Qed.

Lemma string_length_app (a b : string) :
  String.length (a +:+ b) = (String.length a + String.length b)%nat.
Proof.
  induction a as [|c a IH]; [done|].
  rewrite string_app_cons. simpl. by rewrite IH.
Qed.

Lemma string_app_assoc (a b c : string) : (a +:+ b) +:+ c = a +:+ (b +:+ c).
Proof.
  induction a as [|x a IH]; [done|].
  rewrite !string_app_cons. by rewrite IH.
Qed.

Lemma concat_merge a b l :
  String.concat "&" ((a +:+ "&" +:+ b) :: l) = String.concat "&" (a :: b :: l).
Proof.
  destruct l as [|c l]; simpl; [done|]. by rewrite !string_app_assoc.
Qed.

Lemma foldl_encodeStep qs : forall buf,
  (0 < String.length buf)%nat ->
  foldl encodeStep buf qs = String.concat "&" (buf :: (escapedPair <$> qs)).
Proof.
  induction qs as [|q qs IH]; intros buf Hbuf; [done|].
  cbn [foldl fmap list_fmap]. rewrite IH.
  - unfold encodeStep. apply Nat.ltb_lt in Hbuf as ->.
    rewrite string_app_assoc. apply concat_merge.
  - unfold encodeStep. rewrite !string_length_app. simpl. lia.
Qed.

Lemma foldl_encodeStep_empty qs :
  foldl encodeStep "" qs = String.concat "&" (escapedPair <$> qs).
Proof.
  destruct qs as [|q qs]; [done|].
  cbn [foldl]. rewrite foldl_encodeStep; [done|].
  unfold encodeStep. simpl. rewrite !string_length_app. simpl. lia.
Qed.

Lemma foldl_nested (vs : string -> list string) keys : forall buf,
  foldl (fun buf k => foldl (fun buf x => encodeStep buf (k, x)) buf (vs k)) buf keys
  = foldl encodeStep buf (k ← keys; (fun x => (k, x)) <$> vs k).
Proof.
  induction keys as [|k keys IH]; intros buf; [done|].
  rewrite bind_cons, foldl_app. cbn [foldl]. rewrite IH. f_equal.
  generalize buf. induction (vs k) as [|x xs IHx]; intros buf'; [done|].
  cbn [foldl fmap list_fmap]. apply IHx.
Qed.

Lemma Encode_concat v :
  Encode v = String.concat "&" (escapedPair <$> pairsOf v).
Proof.
  rewrite <- foldl_encodeStep_empty. unfold pairsOf.
  rewrite <- (foldl_nested (fun k => default [] (v !! k))).
  unfold Encode. destruct (Nat.eqb_spec (size v) 0) as [Hz|_]; [|done].
  apply map_size_empty_inv in Hz as ->.
  unfold sortedKeys. by rewrite map_to_list_empty.
Qed.

Lemma sortedKeys_sorted v : StronglySorted String.le (sortedKeys v).
Proof. apply StronglySorted_merge_sort; apply _. Qed.

Lemma sortedKeys_perm v : sortedKeys v ≡ₚ (map_to_list v).*1.
Proof. apply merge_sort_Permutation. Qed.

Lemma sortedKeys_NoDup v : NoDup (sortedKeys v).
Proof. rewrite sortedKeys_perm. apply NoDup_fst_map_to_list. Qed.

Lemma elem_of_sortedKeys v k : k ∈ sortedKeys v <-> is_Some (v !! k).
Proof.
  rewrite sortedKeys_perm, list_elem_of_fmap. split.
  - intros ([k' x] & -> & Hin). apply elem_of_map_to_list in Hin. by eexists.
  - intros [x Hx]. exists (k, x). split; [done|]. by apply elem_of_map_to_list.
Qed.

Lemma grouped_sorted (vs : string -> list string) keys :
  StronglySorted String.le keys ->
  StronglySorted keyLe (k ← keys; (fun x => (k, x)) <$> vs k).
Proof.
  induction 1 as [|k keys Hs IH Hall]; [constructor|].
  rewrite bind_cons. apply StronglySorted_app_2; [| |done].
  - intros p q Hp Hq.
    apply list_elem_of_fmap in Hp as (x & -> & _).
    apply list_elem_of_bind in Hq as (k' & Hq & Hk').
    apply list_elem_of_fmap in Hq as (y & -> & _).
    unfold keyLe. simpl. rewrite Forall_forall in Hall. by apply Hall.
  - induction (vs k) as [|x xs IHx]; [constructor|].
    cbn [fmap list_fmap]. constructor; [done|].
    apply Forall_forall. intros q Hq.
    apply list_elem_of_fmap in Hq as (y & -> & _). by unfold keyLe.
Qed.

Lemma withKey_group k k' (xs : list string) :
  withKey k ((fun x => (k', x)) <$> xs)
  = if decide (k' = k) then (fun x => (k', x)) <$> xs else [].
Proof.
  unfold withKey. induction xs as [|x xs IH]; [by destruct (decide _)|].
  cbn [fmap list_fmap]. rewrite filter_cons. simpl.
  fold (fmap (M := list) (fun x => (k', x)) xs). rewrite IH.
  by destruct (decide (k' = k)).
Qed.

Lemma withKey_grouped (vs : string -> list string) keys k :
  NoDup keys ->
  withKey k (k' ← keys; (fun x => (k', x)) <$> vs k')
  = if decide (k ∈ keys) then (fun x => (k, x)) <$> vs k else [].
Proof.
  induction 1 as [|k' keys Hnotin Hnd IH]; [done|].
  rewrite bind_cons. unfold withKey in *. rewrite filter_app.
  fold (withKey k ((fun x => (k', x)) <$> vs k')).
  rewrite withKey_group, IH.
  destruct (decide (k' = k)) as [->|Hne].
  - rewrite (decide_True (P := k ∈ k :: keys)) by (apply elem_of_cons; by left).
    rewrite (decide_False (P := k ∈ keys)) by done.
    by rewrite app_nil_r.
  - destruct (decide (k ∈ keys)) as [Hin|Hnin].
    + by rewrite (decide_True (P := k ∈ k' :: keys)) by (apply elem_of_cons; by right).
    + rewrite (decide_False (P := k ∈ k' :: keys)); [done|].
      apply not_elem_of_cons. by split.
Qed.

Lemma withKey_pairsOf v k :
  withKey k (pairsOf v) = (fun x => (k, x)) <$> default [] (v !! k).
Proof.
  unfold pairsOf.
  rewrite (withKey_grouped (fun k => default [] (v !! k))) by apply sortedKeys_NoDup.
  destruct (decide (k ∈ sortedKeys v)) as [Hin|Hnotin]; [done|].
  rewrite elem_of_sortedKeys in Hnotin.
  by destruct (v !! k) as [xs|]; [destruct Hnotin; eauto|].
Qed.

Lemma ofPairs_snoc ps p : ofPairs (ps ++ [p]) = Values_Add p.1 p.2 (ofPairs ps).
Proof. unfold ofPairs. by rewrite foldl_app. Qed.

Lemma ofPairs_lookup ps k : default [] (ofPairs ps !! k) = (withKey k ps).*2.
Proof.
  induction ps as [|[k' x] ps IH] using rev_ind; [done|].
  rewrite ofPairs_snoc. unfold Values_Add, withKey in *. rewrite filter_app. simpl.
  rewrite fmap_app, <- IH. rewrite filter_cons, filter_nil. simpl.
  destruct (decide (k' = k)) as [->|Hne].
  - by rewrite lookup_insert_eq.
  - rewrite lookup_insert_ne by done. by rewrite app_nil_r.
Qed.

Lemma withKey_rebuild k ps : (fun x => (k, x)) <$> (withKey k ps).*2 = withKey k ps.
Proof.
  unfold withKey. induction ps as [|[k' x] ps IH]; [done|].
  rewrite filter_cons. simpl. destruct (decide (k' = k)) as [->|Hne]; [|done].
  cbn [fmap list_fmap]. simpl. f_equal. apply IH.
Qed.

Lemma withKey_ofPairs ps k : withKey k (pairsOf (ofPairs ps)) = withKey k ps.
Proof. by rewrite withKey_pairsOf, ofPairs_lookup, withKey_rebuild. Qed.

(** C4, as the code has it.  For the form data a caller builds by adding
    the pairs [ps] in order, [SetFormBody] on a request with a header map
    sets [Content-Type] to [application/x-www-form-urlencoded] and leaves a
    body that reads as the escaped pairs [key=value] joined by [&], in the
    order of the keys (bytewise ascending) and not of the caller; the pairs
    of one key keep the order in which the caller added them.  The content
    length is the length of that text. *)
Theorem SetFormBody_sorted_by_key ps req h m st :
  Header req = Some h -> headers st !! h = Some m ->
  exists req' st' qs,
    SetFormBody (ofPairs ps) req st = Ret req' st'
    /\ Header_Get (Header req') "Content-Type" st'
       = Ret "application/x-www-form-urlencoded" st'
    /\ view (Body req') st'
       = Some (chunks (bytesOfString (String.concat "&" (escapedPair <$> qs))))
    /\ ContentLength req'
       = Z.of_nat (String.length (String.concat "&" (escapedPair <$> qs)))
    /\ StronglySorted keyLe qs
    /\ forall k, withKey k qs = withKey k ps.
Proof.
  intros Hh Hm.
  destruct (Header_Set_Get h m "Content-Type" "application/x-www-form-urlencoded" st Hm)
    as (st1 & HS & Hh1 & Hr1 & Ht1 & HG1).
  set (body := Encode (ofPairs ps)).
  set (l := fresh (dom (readers st1))).
  set (st2 := State (<[l := StringsReader body 0]> (readers st1)) (headers st1) (trace st1)).
  assert (Hsrc : boundedSource st2 (ptrStringsReader l) (drop 0 (bytesOfString body))).
  { constructor. simpl. by rewrite lookup_insert_eq. }
  destruct (SetBody_bounded st2 _ _ req Hsrc)
    as (req' & f & HSB & HCL & _ & _ & HB & HH & _).
  exists req', st2, (pairsOf (ofPairs ps)).
  rewrite <- Encode_concat. fold body.
  split.
  { unfold SetFormBody, bind. rewrite Hh, HS.
    unfold strings_NewReader, bind, allocReader, ret. fold body l st2. exact HSB. }
  split.
  { rewrite HH, Hh. eapply Header_Get_lookup.
    - simpl. rewrite Hh1. apply lookup_insert_eq.
    - apply lookup_insert_eq. }
  split.
  { rewrite HB. simpl in *. destruct (bytesOfString body) eqn:Hb; [done|].
    simpl. by rewrite lookup_insert_eq, Hb. }
  split.
  { rewrite HCL. change (drop 0 (bytesOfString body)) with (bytesOfString body).
    by rewrite length_bytesOfString. }
  split; [apply grouped_sorted, sortedKeys_sorted|].
  intros k. apply withKey_ofPairs.
Qed.

Lemma SetFormBody_sorted_by_key_sample :
  Header sampleRequest = Some 1%positive
  /\ headers sampleState !! 1%positive = Some ∅
  /\ exists req' st' qs,
    SetFormBody (ofPairs [("x", "1"); ("y", "2 3")]) sampleRequest sampleState
    = Ret req' st'
    /\ Header_Get (Header req') "Content-Type" st'
       = Ret "application/x-www-form-urlencoded" st'
    /\ view (Body req') st'
       = Some (chunks (bytesOfString (String.concat "&" (escapedPair <$> qs))))
    /\ ContentLength req'
       = Z.of_nat (String.length (String.concat "&" (escapedPair <$> qs)))
    /\ StronglySorted keyLe qs
    /\ forall k, withKey k qs = withKey k [("x", "1"); ("y", "2 3")].
Proof.
  assert (H2 : Header sampleRequest = Some 1%positive) by reflexivity.
  assert (H3 : headers sampleState !! 1%positive = Some (∅ : http_Header))
    by (vm_compute; reflexivity).
  split; [exact H2|]. split; [exact H3|].
  exact (SetFormBody_sorted_by_key [("x", "1"); ("y", "2 3")] _ _ _ _ H2 H3).
Defined.

(** The example of the spec: two pairs added in the order of their keys. *)
Lemma SetFormBody_x_y :
  exists req' st' st'',
    SetFormBody (ofPairs [("x", "1"); ("y", "2 3")]) sampleRequest sampleState
    = Ret req' st'
    /\ ContentLength req' = 9%Z
    /\ ReadAll (Body req') st' = Ret (bytesOfString "x=1&y=2+3", None) st''.
Proof. eexists _, _, _. repeat split; vm_compute; reflexivity. Qed.

(** C4, as claimed, fails: pairs added with [y] before [x] are written with
    [x] before [y], not in the order of the caller. *)
Lemma SetFormBody_not_caller_order :
  exists req' st' st'',
    SetFormBody (ofPairs [("y", "2 3"); ("x", "1")]) sampleRequest sampleState
    = Ret req' st'
    /\ ReadAll (Body req') st' = Ret (bytesOfString "x=1&y=2+3", None) st''
    /\ String.concat "&" (escapedPair <$> [("y", "2 3"); ("x", "1")]) = "y=2+3&x=1".
Proof. eexists _, _, _. repeat split; vm_compute; reflexivity. Qed.

(** ** Retries *)


Lemma boundedSource_view st body content :
  boundedSource st body content -> view body st = Some (chunks content).
Proof. intros [l ? ? Hl|l ? ? Hl|l ? ? Hl]; simpl; by rewrite Hl. Qed.



Section Retry.
Context `{Library}.

Lemma retry_loop_preserves {E} (P : state -> Prop) (fn : E -> M (E * option error))
  retryable n :
  (forall env st r st', fn env st = Ret r st' -> P st -> P st') ->
  forall env st r st',
    retry_loop fn retryable n env st = Ret r st' -> P st -> P st'.
Proof.
  intros Hfn. induction n as [|n IH]; intros env st r st'; simpl; unfold bind;
    destruct (fn env st) as [[env1 [e|]] st1|] eqn:Hf; try done.
  - intros [= <- <-]. by eapply Hfn.
  - intros [= <- <-]. by eapply Hfn.
  - destruct (retryable e).
    + intros Hl HP. eapply IH; [exact Hl|]. by eapply Hfn.
    + intros [= <- <-]. by eapply Hfn.
  - intros [= <- <-]. by eapply Hfn.
Qed.

(** X10.  Whatever the transport does, [Do] adds nothing of its own: a
    property of the state that every attempt of the transport preserves is
    preserved by [Do]. *)
Lemma Do_preserves (P : state -> Prop) c req :
  (forall st r st', http_Client_Do (client c) req st = Ret r st' -> P st -> P st') ->
  forall st r st', Do c req st = Ret r st' -> P st -> P st'.
Proof.
  intros Hdo st r st'. unfold Do, retry_Do.
  apply retry_loop_preserves. intros env st0 r0 st0'. unfold bind.
  destruct (http_Client_Do (client c) req st0) as [[resp [e|]] st1|] eqn:Hd;
    try done; intros [= <- <-]; by eapply Hdo.
Qed.


End Retry.



(** ** What [SetBody] keeps and what it replaces *)

Lemma inferLength_fields body other req st req' st' :
  (forall r, sameTarget (other r) r) ->
  inferLength body other req st = Ret req' st' ->
  st' = st /\ sameTarget req' req.
Proof.
  intros Hother.
  destruct body as [|l|l|l| |r|l c]; simpl;
    unfold Buffer_Len, Buffer_Bytes, BytesReader_Len, StringsReader_Len,
      bind, ret, getReader, panic;
    try (intros [= <- <-]; split; [done|apply Hother]);
    destruct (readers st !! l) as [[| | |]|] eqn:Hl; simpl;
    rewrite ?Hl; simpl; try done;
    intros [= <- <-]; by repeat split.
Qed.

Lemma SetBody_fields body req st req' st' :
  SetBody body req st = Ret req' st' -> st' = st /\ sameTarget req' req.
Proof.
  unfold SetBody. destruct (isNil (asReadCloser body)).
  { intros [= <- <-]. by repeat split. }
  unfold bind.
  destruct (inferLength body _ (with_Body (asReadCloser body) req) st)
    as [req1 st1|] eqn:Hi; [|done].
  apply inferLength_fields in Hi as [-> Hsame].
  2:{ intros r. by destruct (negb (isNoBody body)). }
  destruct (ContentLength req1 =? 0)%Z; intros [= <- <-];
    (split; [done|]); destruct Hsame as (? & ? & ?); by repeat split.
Qed.

(** X1.  Whatever the source, a [SetBody] that returns has changed neither
    the heap of readers, nor the header maps, nor the trace, and has left
    the method, the URL and the header pointer of the request alone. *)
Theorem SetBody_frame body req st req' st' :
  SetBody body req st = Ret req' st' ->
  st' = st /\ Method req' = Method req /\ URL_ req' = URL_ req
  /\ Header req' = Header req.
Proof. intros HS. by apply SetBody_fields in HS as [-> (? & ? & ?)]. Qed.

Lemma SetBody_frame_sample :
  exists req',
    SetBody (otherReader 2 true) sampleRequest sampleState = Ret req' sampleState
    /\ Method req' = "POST" /\ URL_ req' = sampleURL /\ Header req' = Some 1%positive.
Proof.
  eexists.
  match goal with
  | |- ?A /\ _ => assert (HS : A) by (vm_compute; reflexivity)
  end.
  split; [exact HS|]. exact (proj2 (SetBody_frame _ _ _ _ _ HS)).
Defined.

Lemma with_fields_sameTarget g n b req1 req2 :
  sameTarget req1 req2 ->
  with_GetBody g (with_ContentLength n (with_Body b req1))
  = with_GetBody g (with_ContentLength n (with_Body b req2)).
Proof.
  destruct req1, req2. intros (? & ? & ?). simpl in *. by subst.
Qed.

Lemma SetBody_sameTarget body req1 req2 st :
  nilOrInMemory body = true -> sameTarget req1 req2 ->
  SetBody body req1 st = SetBody body req2 st.
Proof.
  intros Hb Hsame.
  pose proof (fun g n b => with_fields_sameTarget g n b req1 req2 Hsame) as Heq.
  destruct body as [|l|l|l| |r|l c]; try done; unfold SetBody; simpl.
  - unfold emptyBody. cbn [with_GetBody with_Body with_ContentLength
      Method URL_ Header Body GetBody ContentLength].
    destruct req1, req2, Hsame as (? & ? & ?). simpl in *. by subst.
  - unfold Buffer_Len, Buffer_Bytes, bind, ret, getReader, panic.
    destruct (readers st !! l) as [[| | |]|] eqn:Hl; simpl;
      rewrite ?Hl; simpl; try done.
    by rewrite Heq.
  - unfold BytesReader_Len, bind, ret, getReader, panic.
    destruct (readers st !! l) as [[| | |]|] eqn:Hl; simpl;
      rewrite ?Hl; simpl; try done.
    by rewrite Heq.
  - unfold StringsReader_Len, bind, ret, getReader, panic.
    destruct (readers st !! l) as [[| | |]|] eqn:Hl; simpl;
      rewrite ?Hl; simpl; try done.
    by rewrite Heq.
Qed.

(** X2.  A [SetBody] with a nil source or with one of the three in-memory
    readers replaces all of an earlier [SetBody]: body, factory and content
    length are those the later call would give on the request as it was
    before the earlier one. *)
Theorem SetBody_replaces_earlier body1 body2 req req1 st :
  nilOrInMemory body2 = true ->
  SetBody body1 req st = Ret req1 st ->
  SetBody body2 req1 st = SetBody body2 req st.
Proof.
  intros Hb HS. apply SetBody_sameTarget; [done|].
  by apply SetBody_fields in HS as [_ ?].
Qed.

Lemma SetBody_replaces_earlier_sample :
  exists req1,
    SetBody (otherReader 2 true) sampleRequest sampleState = Ret req1 sampleState
    /\ SetBody (ptrBuffer 1) req1 sampleState
       = SetBody (ptrBuffer 1) sampleRequest sampleState.
Proof.
  eexists.
  match goal with
  | |- ?A /\ _ => assert (HS : A) by (vm_compute; reflexivity)
  end.
  split; [exact HS|].
  exact (SetBody_replaces_earlier _ (ptrBuffer 1) _ _ _ eq_refl HS).
Defined.

Lemma factory_stream f st :
  exists r st1 st2,
    callGetBody f st = Ret (r, None) st1
    /\ ReadAll r st1 = Ret (factoryContent f, None) st2.
Proof.
  destruct (callGetBody_fresh f st) as (r & st1 & Hc & Hv & _).
  destruct (ReadAll_chunks r st1 _ Hv) as (st2 & HR & _).
  by exists r, st1, st2.
Qed.

Lemma SetBody_default body req st :
  oneShot body = true ->
  SetBody body req st
  = Ret (with_ContentLength (-1) (with_Body (asReadCloser body) req)) st.
Proof.
  intros Hone. unfold SetBody. rewrite (oneShot_asReadCloser body Hone).
  by destruct body as [| | | | |r|l c].
Qed.

(** X3.  [SetBody] with [http.NoBody] after a [SetBody] with an in-memory
    source empties the body but resets nothing else: the content length
    still counts the bytes of the earlier source and the factory still
    hands them out. *)
Theorem SetBody_NoBody_keeps_length_and_factory st body content req :
  boundedSource st body content ->
  exists req1 req2 r st1 st2,
    SetBody body req st = Ret req1 st
    /\ SetBody NoBody req1 st = Ret req2 st
    /\ Body req2 = NoBody
    /\ ContentLength req2 = Z.of_nat (length content)
    /\ invokeGetBody req2 st = Ret (r, None) st1
    /\ ReadAll r st1 = Ret (content, None) st2.
Proof.
  intros Hsrc.
  destruct (SetBody_bounded st body content req Hsrc)
    as (req1 & f & HS & HCL & HG & Hf & _).
  assert (HS2 : SetBody NoBody req1 st
                = Ret (if content is [] then emptyBody (with_Body NoBody req1)
                       else with_Body NoBody req1) st).
  { unfold SetBody. simpl. unfold bind, ret. simpl. rewrite HCL.
    by destruct content. }
  destruct (factory_stream (if content is [] then getNoBody else f) st)
    as (r & st1 & st2 & Hc & HR).
  assert (Hfc : factoryContent (if content is [] then getNoBody else f) = content)
    by (by destruct content).
  rewrite Hfc in HR.
  eexists req1, _, r, st1, st2. split; [exact HS|]. split; [exact HS2|].
  unfold invokeGetBody.
  destruct content as [|b bs]; simpl; rewrite ?HG; by repeat split.
Qed.

Lemma SetBody_NoBody_keeps_length_and_factory_sample :
  boundedSource sampleState (ptrBuffer 1) (drop 1 (bytesOfString "hello"))
  /\ exists req1 req2 r st1 st2,
    SetBody (ptrBuffer 1) sampleRequest sampleState = Ret req1 sampleState
    /\ SetBody NoBody req1 sampleState = Ret req2 sampleState
    /\ Body req2 = NoBody
    /\ ContentLength req2 = Z.of_nat (length (drop 1 (bytesOfString "hello")))
    /\ invokeGetBody req2 sampleState = Ret (r, None) st1
    /\ ReadAll r st1 = Ret (drop 1 (bytesOfString "hello"), None) st2.
Proof.
  assert (Hsrc : boundedSource sampleState (ptrBuffer 1)
                   (drop 1 (bytesOfString "hello"))).
  { apply (bounded_Buffer sampleState 1%positive (bytesOfString "hello") 1).
    vm_compute. reflexivity. }
  split; [exact Hsrc|].
  exact (SetBody_NoBody_keeps_length_and_factory sampleState (ptrBuffer 1) _
           sampleRequest Hsrc).
Defined.

(** X4.  [SetBody] with a streaming source after a [SetBody] with an
    in-memory source sets the content length to -1 and the body to the
    stream, and keeps the factory of the earlier source: [GetBody] returns,
    without error, a stream of the earlier bytes. *)
Theorem SetBody_stream_keeps_earlier_factory st body content body2 req :
  boundedSource st body content -> oneShot body2 = true ->
  exists req1 req2 r st1 st2,
    SetBody body req st = Ret req1 st
    /\ SetBody body2 req1 st = Ret req2 st
    /\ Body req2 = asReadCloser body2
    /\ ContentLength req2 = (-1)%Z
    /\ invokeGetBody req2 st = Ret (r, None) st1
    /\ ReadAll r st1 = Ret (content, None) st2.
Proof.
  intros Hsrc Hone.
  destruct (SetBody_bounded st body content req Hsrc)
    as (req1 & f & HS & HCL & HG & Hf & _).
  destruct (factory_stream f st) as (r & st1 & st2 & Hc & HR).
  rewrite Hf in HR.
  eexists req1, _, r, st1, st2. split; [exact HS|].
  split; [by apply SetBody_default|].
  repeat split; try done. unfold invokeGetBody. simpl. by rewrite HG.
Qed.

Lemma SetBody_stream_keeps_earlier_factory_sample :
  boundedSource sampleState (ptrBuffer 1) (drop 1 (bytesOfString "hello"))
  /\ oneShot (otherReader 2 true) = true
  /\ exists req1 req2 r st1 st2,
    SetBody (ptrBuffer 1) sampleRequest sampleState = Ret req1 sampleState
    /\ SetBody (otherReader 2 true) req1 sampleState = Ret req2 sampleState
    /\ Body req2 = asReadCloser (otherReader 2 true)
    /\ ContentLength req2 = (-1)%Z
    /\ invokeGetBody req2 sampleState = Ret (r, None) st1
    /\ ReadAll r st1 = Ret (drop 1 (bytesOfString "hello"), None) st2.
Proof.
  assert (Hsrc : boundedSource sampleState (ptrBuffer 1)
                   (drop 1 (bytesOfString "hello"))).
  { apply (bounded_Buffer sampleState 1%positive (bytesOfString "hello") 1).
    vm_compute. reflexivity. }
  split; [exact Hsrc|]. split; [reflexivity|].
  exact (SetBody_stream_keeps_earlier_factory sampleState (ptrBuffer 1) _
           (otherReader 2 true) sampleRequest Hsrc eq_refl).
Defined.

Lemma replay_after_read st body content req f :
  boundedSource st body content ->
  GetBody req = Some f -> factoryContent f = content ->
  Body req = (if content is [] then NoBody else nopCloser body) ->
  exists st1 r st2 st3 st4,
    ReadAll (Body req) st = Ret (content, None) st1
    /\ ReadAll body st1 = Ret ([], None) st2
    /\ invokeGetBody req st2 = Ret (r, None) st3
    /\ ReadAll r st3 = Ret (content, None) st4.
Proof.
  intros Hsrc HG Hf HB.
  pose proof (boundedSource_view _ _ _ Hsrc) as Hv.
  assert (Hvb : view (Body req) st = Some (chunks content)).
  { rewrite HB. by destruct content. }
  destruct (ReadAll_chunks _ _ _ Hvb) as (st1 & HR1 & Hv1 & Hf1).
  assert (Hv1' : view body st1 = Some (chunks [])).
  { rewrite HB in Hv1, Hf1. destruct content as [|b bs]; [|exact Hv1].
    rewrite (view_frame NoBody body st st1 Hf1); [exact Hv|done]. }
  destruct (ReadAll_chunks _ _ _ Hv1') as (st2 & HR2 & _).
  destruct (factory_stream f st2) as (r & st3 & st4 & Hc & HR).
  rewrite Hf in HR.
  exists st1, r, st2, st3, st4. unfold invokeGetBody. rewrite HG.
  by repeat split.
Qed.

(** X5.  The body [SetBody] installs for an in-memory source reads from the
    caller's own reader: once the request body has been read to its end the
    caller's reader is exhausted too, while [GetBody] still returns a stream
    of all the bytes. *)
Theorem SetBody_body_shares_source_factory_replays st body content req :
  boundedSource st body content ->
  exists req' st1 r st2 st3 st4,
    SetBody body req st = Ret req' st
    /\ ReadAll (Body req') st = Ret (content, None) st1
    /\ ReadAll body st1 = Ret ([], None) st2
    /\ invokeGetBody req' st2 = Ret (r, None) st3
    /\ ReadAll r st3 = Ret (content, None) st4.
Proof.
  intros Hsrc.
  destruct (SetBody_bounded st body content req Hsrc)
    as (req' & f & HS & _ & HG & Hf & HB & _).
  destruct (replay_after_read st body content req' f Hsrc HG Hf HB)
    as (st1 & r & st2 & st3 & st4 & H1 & H2 & H3 & H4).
  by exists req', st1, r, st2, st3, st4.
Qed.

Lemma SetBody_body_shares_source_factory_replays_sample :
  boundedSource sampleState (ptrBuffer 1) (drop 1 (bytesOfString "hello"))
  /\ exists req' st1 r st2 st3 st4,
    SetBody (ptrBuffer 1) sampleRequest sampleState = Ret req' sampleState
    /\ ReadAll (Body req') sampleState
       = Ret (drop 1 (bytesOfString "hello"), None) st1
    /\ ReadAll (ptrBuffer 1) st1 = Ret ([], None) st2
    /\ invokeGetBody req' st2 = Ret (r, None) st3
    /\ ReadAll r st3 = Ret (drop 1 (bytesOfString "hello"), None) st4.
Proof.
  assert (Hsrc : boundedSource sampleState (ptrBuffer 1)
                   (drop 1 (bytesOfString "hello"))).
  { apply (bounded_Buffer sampleState 1%positive (bytesOfString "hello") 1).
    vm_compute. reflexivity. }
  split; [exact Hsrc|].
  exact (SetBody_body_shares_source_factory_replays sampleState (ptrBuffer 1) _
           sampleRequest Hsrc).
Defined.

(** ** Bodies built by [WithJsonBody] and [SetFormBody] *)

Lemma alloc_bounded_BytesReader bs st :
  let l := fresh (dom (readers st)) in
  boundedSource (State (<[l := BytesReader bs 0]> (readers st)) (headers st) (trace st))
    (ptrBytesReader l) bs.
Proof.
  intros l. apply (bounded_BytesReader _ l bs 0). simpl. apply lookup_insert_eq.
Qed.

Lemma alloc_bounded_StringsReader s st :
  let l := fresh (dom (readers st)) in
  boundedSource (State (<[l := StringsReader s 0]> (readers st)) (headers st) (trace st))
    (ptrStringsReader l) (bytesOfString s).
Proof.
  intros l. apply (bounded_StringsReader _ l s 0). simpl. apply lookup_insert_eq.
Qed.

Section JsonBodies.
Context `{Library}.

Lemma WithJsonBody_ok (v : goValue) bs req h m st :
  json_Marshal v = inl bs ->
  Header req = Some h -> headers st !! h = Some m ->
  exists req' st' body f,
    WithJsonBody v req st = Ret (req', None) st'
    /\ boundedSource st' body bs
    /\ GetBody req' = Some f /\ factoryContent f = bs
    /\ Body req' = (if bs is [] then NoBody else nopCloser body)
    /\ ContentLength req' = Z.of_nat (length bs)
    /\ headers st' = <[h := <["Content-Type" := ["application/json"]]> m]> (headers st)
    /\ Header req' = Header req.
Proof.
  intros Hbs Hh Hm.
  destruct (Header_Set_Get h m "Content-Type" "application/json" st Hm)
    as (st1 & HS & Hh1 & _).
  pose proof (alloc_bounded_BytesReader bs st1) as Hsrc. simpl in Hsrc.
  destruct (SetBody_bounded _ _ _ req Hsrc)
    as (req' & f & HSB & HCL & HG & Hf & HB & HH & _).
  eexists req', _, _, f. split.
  { unfold WithJsonBody, bind. rewrite Hh, HS, Hbs.
    unfold bytes_NewReader, bind, allocReader, ret. by rewrite HSB. }
  split; [exact Hsrc|]. by repeat split.
Qed.

(** X6.  The body [WithJsonBody] attaches reads as the serialized payload,
    and after it has been read to its end [GetBody] still returns a stream
    of the whole payload. *)
Theorem WithJsonBody_body_and_replay (v : goValue) bs req h m st :
  json_Marshal v = inl bs ->
  Header req = Some h -> headers st !! h = Some m ->
  exists req' st' st1 r st2 st3,
    WithJsonBody v req st = Ret (req', None) st'
    /\ ReadAll (Body req') st' = Ret (bs, None) st1
    /\ invokeGetBody req' st1 = Ret (r, None) st2
    /\ ReadAll r st2 = Ret (bs, None) st3.
Proof.
  intros Hbs Hh Hm.
  destruct (WithJsonBody_ok v bs req h m st Hbs Hh Hm)
    as (req' & st' & body & f & HW & Hsrc & HG & Hf & HB & _).
  pose proof (boundedSource_view _ _ _ Hsrc) as Hv.
  assert (Hvb : view (Body req') st' = Some (chunks bs)).
  { rewrite HB. by destruct bs. }
  destruct (ReadAll_chunks _ _ _ Hvb) as (st1 & HR1 & _).
  destruct (factory_stream f st1) as (r & st2 & st3 & Hc & HR).
  rewrite Hf in HR.
  exists req', st', st1, r, st2, st3. unfold invokeGetBody. rewrite HG.
  by repeat split.
Qed.

Lemma NewRequest_result (c : Client) method url body st req st' :
  NewRequest c method url body st = Ret (Some req, None) st' ->
  Header req = header c
  /\ url_Parse url = inl (URL_ req)
  /\ Method req = (if String.eqb method "" then "GET" else method)
  /\ readers st' = readers st.
Proof.
  unfold NewRequest, http_NewRequest, bind.
  destruct (validMethod _); simpl; [|done].
  destruct (url_Parse url) as [u|e]; simpl; [|done].
  destruct (isNil body); simpl.
  { intros [= <- <-]. by repeat split. }
  match goal with
  | |- context [inferLength body ?o ?r ?s] =>
      destruct (inferLength body o r s) as [req1 st1|] eqn:Hi; [|done]
  end.
  apply inferLength_fields in Hi as [-> (HM & HU & HH)]; [|done].
  simpl in HM, HU, HH.
  destruct (bool_decide _ && _); simpl; intros [= <- <-]; simpl;
    by rewrite ?HM, ?HU.
Qed.

(** X7.  A client built with nil options, or with options that give no
    header map, passes its nil header map to every request it builds, and
    on such a request [WithJsonBody] and [SetFormBody] panic in
    [Header.Set]. *)
Theorem requests_of_headerless_client_panic (opts : option ClientOptions) c
    method url body st req st' :
  (opts = None \/ exists o, opts = Some o /\ Header_ o = None) ->
  NewClient opts = Some c ->
  NewRequest c method url body st = Ret (Some req, None) st' ->
  Header req = None
  /\ (forall v : goValue,
        WithJsonBody v req st' = Panic "assignment to entry in nil map")
  /\ (forall data, SetFormBody data req st' = Panic "assignment to entry in nil map").
Proof.
  intros Hopts Hc HN.
  apply NewRequest_result in HN as (HH & _).
  assert (Hhc : header c = None).
  { destruct Hopts as [->|(o & -> & Ho)]; injection Hc as <-; [done|exact Ho]. }
  rewrite Hhc in HH. split; [exact HH|]. split.
  - intros v. unfold WithJsonBody, bind. by rewrite HH.
  - intros data. unfold SetFormBody, bind. by rewrite HH.
Qed.

Lemma WithJsonBody_sets_header (v : goValue) req h m st :
  Header req = Some h -> headers st !! h = Some m ->
  exists r st',
    WithJsonBody v req st = Ret r st'
    /\ headers st' = <[h := <["Content-Type" := ["application/json"]]> m]> (headers st).
Proof.
  intros Hh Hm. destruct (json_Marshal v) as [bs|e] eqn:Hv.
  - destruct (WithJsonBody_ok v bs req h m st Hv Hh Hm)
      as (req' & st' & _ & _ & HW & _ & _ & _ & _ & _ & Hhs & _).
    by eexists _, st'.
  - destruct (Header_Set_Get h m "Content-Type" "application/json" st Hm)
      as (st1 & HS & Hh1 & _).
    exists (req, Some e), st1. unfold WithJsonBody, bind. by rewrite Hh, HS, Hv.
Qed.

(** X8.  The requests of one client share the client's header map: after
    [WithJsonBody] on one of them, whether it succeeds or not, every other
    request of the client reads [Content-Type: application/json], and so
    does the client's own default header. *)
Theorem WithJsonBody_changes_sibling_requests (c : Client)
    m1 u1 b1 m2 u2 b2 st0 st1 st req1 req2 h m (v : goValue) :
  NewRequest c m1 u1 b1 st0 = Ret (Some req1, None) st1 ->
  NewRequest c m2 u2 b2 st1 = Ret (Some req2, None) st ->
  header c = Some h -> headers st !! h = Some m ->
  exists r st',
    WithJsonBody v req1 st = Ret r st'
    /\ Header_Get (Header req2) "Content-Type" st' = Ret "application/json" st'
    /\ Header_Get (header c) "Content-Type" st' = Ret "application/json" st'.
Proof.
  intros H1 H2 Hc Hm.
  apply NewRequest_result in H1 as (HH1 & _).
  apply NewRequest_result in H2 as (HH2 & _).
  rewrite Hc in HH1, HH2.
  destruct (WithJsonBody_sets_header v req1 h m st HH1 Hm) as (r & st' & HW & Hhs).
  exists r, st'. split; [exact HW|].
  rewrite HH2, Hc.
  assert (HG : Header_Get (Some h) "Content-Type" st' = Ret "application/json" st').
  { eapply Header_Get_lookup; [rewrite Hhs; apply lookup_insert_eq|].
    apply lookup_insert_eq. }
  by split.
Qed.

End JsonBodies.

Lemma WithJsonBody_body_and_replay_sample :
  let bs := bytesOfString ("{" +:+ quote "a" +:+ ":1}") in
  @json_Marshal stubLibrary (structWithInt "a" 1) = inl bs
  /\ Header sampleRequest = Some 1%positive
  /\ headers sampleState !! 1%positive = Some ∅
  /\ exists req' st' st1 r st2 st3,
    @WithJsonBody stubLibrary (structWithInt "a" 1) sampleRequest sampleState
    = Ret (req', None) st'
    /\ ReadAll (Body req') st' = Ret (bs, None) st1
    /\ invokeGetBody req' st1 = Ret (r, None) st2
    /\ ReadAll r st2 = Ret (bs, None) st3.
Proof.
  assert (H1 : @json_Marshal stubLibrary (structWithInt "a" 1)
               = inl (bytesOfString ("{" +:+ quote "a" +:+ ":1}")))
    by (vm_compute; reflexivity).
  assert (H2 : Header sampleRequest = Some 1%positive) by reflexivity.
  assert (H3 : headers sampleState !! 1%positive = Some (∅ : http_Header))
    by (vm_compute; reflexivity).
  split; [exact H1|]. split; [exact H2|]. split; [exact H3|].
  exact (@WithJsonBody_body_and_replay stubLibrary _ _ _ _ _ _ H1 H2 H3).
Defined.

Lemma requests_of_headerless_client_panic_sample :
  exists c req st',
    NewClient None = Some c
    /\ @NewRequest stubLibrary c "POST" "http://example.com/" (ptrBuffer 1) sampleState
       = Ret (Some req, None) st'
    /\ Header req = None
    /\ (forall v : stubValue,
          @WithJsonBody stubLibrary v req st' = Panic "assignment to entry in nil map")
    /\ (forall data, SetFormBody data req st' = Panic "assignment to entry in nil map").
Proof.
  eexists _, _, _.
  match goal with
  | |- ?A /\ _ => assert (Hc : A) by reflexivity
  end.
  split; [exact Hc|].
  match goal with
  | |- ?A /\ _ => assert (HN : A) by (vm_compute; reflexivity)
  end.
  split; [exact HN|].
  exact (@requests_of_headerless_client_panic stubLibrary None _ _ _ _ _ _ _
           (or_introl eq_refl) Hc HN).
Defined.

Lemma WithJsonBody_changes_sibling_requests_sample :
  exists req1 st1 req2 st r st',
    @NewRequest stubLibrary sampleClient "POST" "http://example.com/a" nilReader sampleState
    = Ret (Some req1, None) st1
    /\ @NewRequest stubLibrary sampleClient "GET" "http://example.com/b" nilReader st1
       = Ret (Some req2, None) st
    /\ header sampleClient = Some 1%positive
    /\ headers st !! 1%positive = Some ∅
    /\ @WithJsonBody stubLibrary chanValue req1 st = Ret r st'
    /\ Header_Get (Header req2) "Content-Type" st' = Ret "application/json" st'
    /\ Header_Get (header sampleClient) "Content-Type" st' = Ret "application/json" st'.
Proof.
  eexists _, _, _, _.
  match goal with
  | |- exists r st', ?A /\ _ => assert (H1 : A) by (vm_compute; reflexivity)
  end.
  match goal with
  | |- exists r st', _ /\ ?A /\ _ => assert (H2 : A) by (vm_compute; reflexivity)
  end.
  assert (H3 : header sampleClient = Some 1%positive) by reflexivity.
  match goal with
  | |- exists r st', _ /\ _ /\ _ /\ ?A /\ _ =>
      assert (H4 : A) by (vm_compute; reflexivity)
  end.
  destruct (@WithJsonBody_changes_sibling_requests stubLibrary sampleClient
              _ _ _ _ _ _ _ _ _ _ _ _ _ chanValue H1 H2 H3 H4)
    as (r & st' & HW & HG2 & HGc).
  exists r, st'. by repeat split.
Defined.

(** ** What [Do] returns and what it leaves alone *)

Section DoResults.
Context `{Library}.

Lemma Do_loop_results cl req retryable n : forall env st r err st',
  retry_loop
    (fun resp : option Response =>
       let! (httpResp, err) := http_Client_Do cl req in
       match err with
       | Some e => ret (resp, Some e)
       | None => ret (httpResp, None)
       end) retryable n env st = Ret (r, err) st' ->
  match err with
  | Some _ => r = env
  | None => exists st0, http_Client_Do cl req st0 = Ret (r, None) st'
  end.
Proof.
  induction n as [|n IH]; intros env st r err st'; simpl; unfold bind;
    destruct (http_Client_Do cl req st) as [[resp [e|]] st1|] eqn:Hd;
    simpl; try done.
  - by intros [= <- <- <-].
  - intros [= <- <- <-]. by exists st.
  - destruct (retryable e); [apply IH|]. by intros [= <- <- <-].
  - intros [= <- <- <-]. by exists st.
Qed.

(** X9.  [Do] returns a nil response with every error, and with a nil error
    the response of an attempt of [c.client.Do] on the request it was given:
    the outcome and the final state are those of that last attempt. *)
Theorem Do_results (c : Client) req st resp err st' :
  Do c req st = Ret (resp, err) st' ->
  match err with
  | Some _ => resp = None
  | None => exists st0, http_Client_Do (client c) req st0 = Ret (resp, None) st'
  end.
Proof. unfold Do, retry_Do. apply Do_loop_results. Qed.

End DoResults.

Lemma Do_results_sample :
  exists req' resp err st',
    SetBody (ptrBuffer 1) sampleRequest sampleState = Ret req' sampleState
    /\ @Do stubLibrary sampleClient req' sampleState = Ret (resp, err) st'
    /\ err = None
    /\ exists st0, stub_Do (client sampleClient) req' st0 = Ret (resp, None) st'.
Proof.
  eexists _, _, _, _.
  match goal with
  | |- ?A /\ _ => assert (HS : A) by (vm_compute; reflexivity)
  end.
  split; [exact HS|].
  match goal with
  | |- ?A /\ _ => assert (HD : A) by (vm_compute; reflexivity)
  end.
  split; [exact HD|]. split; [reflexivity|].
  exact (@Do_results stubLibrary _ _ _ _ _ _ HD).
Defined.

Lemma Read_trace r : forall p st x st',
  Read r p st = Ret x st' -> trace st' = trace st.
Proof.
  induction r as [|l|l|l| |r IH|l c]; intros p st x st'; simpl;
    try done; try (by intros [= <- <-]); try (by apply IH);
    unfold bind, getReader, putReader, ret, panic;
    destruct (readers st !! l) as [[buf off|s i|s i|sc cl]|]; simpl; try done.
  - destruct (length buf <=? off)%nat; by intros [= <- <-].
  - destruct (length s <=? i)%nat; by intros [= <- <-].
  - destruct (String.length s <=? i)%nat; by intros [= <- <-].
  - destruct cl; [by intros [= <- <-]|].
    destruct (script_read p sc) as [[chunk err] sc']. by intros [= <- <-].
Qed.

Lemma ReadAll_loop_trace fuel : forall r b st x st',
  ReadAll_loop fuel r b st = Ret x st' -> trace st' = trace st.
Proof.
  induction fuel as [|fuel IH]; intros r b st x st'; simpl; [done|].
  unfold bind.
  destruct (Read r readSize st) as [[chunk [e|]] st1|] eqn:HR; try done.
  - intros [= <- <-]. by eapply Read_trace.
  - intros HL. rewrite (IH _ _ _ _ _ HL). by eapply Read_trace.
Qed.

Lemma stub_Do_sends_only cl req st r st' :
  stub_Do cl req st = Ret r st' -> noGetBodyCalled st -> noGetBodyCalled st'.
Proof.
  unfold stub_Do, bind, ReadAll, emit, noGetBodyCalled.
  destruct (ReadAll_loop _ (Body req) [] st) as [[bs e] st1|] eqn:HR; [|done].
  apply ReadAll_loop_trace in HR. simpl.
  destruct (countSent (trace st) <? 2)%nat; intros [= <- <-] Hno; simpl;
    rewrite HR; apply Forall_app; split; try done; by repeat constructor.
Qed.

Lemma Do_preserves_sample :
  exists req' r st',
    SetBody (ptrBuffer 1) sampleRequest sampleState = Ret req' sampleState
    /\ @Do stubLibrary sampleClient req' sampleState = Ret r st'
    /\ noGetBodyCalled st'.
Proof.
  eexists _, _, _.
  match goal with
  | |- ?A /\ _ => assert (HS : A) by (vm_compute; reflexivity)
  end.
  split; [exact HS|].
  match goal with
  | |- ?A /\ _ => assert (HD : A) by (vm_compute; reflexivity)
  end.
  split; [exact HD|].
  refine (@Do_preserves stubLibrary noGetBodyCalled sampleClient _ _ _ _ _ HD _).
  - intros st r st'. apply stub_Do_sends_only.
  - constructor.
Defined.

(** ** Reading a response more than once *)

(** X11.  A second [GetStringBody] on a response whose body was read to its
    end by the first returns the empty string and no error: the body is
    consumed, not buffered. *)
Theorem GetStringBody_second_call_empty resp st script bs :
  view (Response_Body resp) st = Some script ->
  drain script = (bs, None, []) ->
  exists st1 st2,
    GetStringBody resp st = Ret (stringOfBytes bs, None) st1
    /\ GetStringBody resp st1 = Ret ("", None) st2.
Proof.
  intros Hv Hd.
  destruct (ReadAll_view _ _ _ Hv) as (st1 & HR1 & Hv1 & _).
  rewrite Hd in HR1, Hv1. simpl in HR1, Hv1.
  destruct (ReadAll_view _ _ _ Hv1) as (st2 & HR2 & _). simpl in HR2.
  exists st1, st2. unfold GetStringBody, bind. by rewrite HR1, HR2.
Qed.

Lemma GetStringBody_second_call_empty_sample :
  exists st1 st2,
    GetStringBody sampleResponse sampleState = Ret ("hi there", None) st1
    /\ GetStringBody sampleResponse st1 = Ret ("", None) st2.
Proof.
  refine (GetStringBody_second_call_empty sampleResponse sampleState
            [Data (bytesOfString "hi "); Data (bytesOfString "there")]
            (bytesOfString "hi there") _ _); vm_compute; reflexivity.
Defined.

(** X12.  [GetStringBody] on a body that wraps an in-memory reader holding
    the bytes of a string returns that string and no error. *)
Theorem GetStringBody_of_string status r s st :
  boundedSource st r (bytesOfString s) ->
  exists st',
    GetStringBody {| StatusCode := status; Response_Body := nopCloser r |} st
    = Ret (s, None) st'.
Proof.
  intros Hsrc. pose proof (boundedSource_view _ _ _ Hsrc) as Hv.
  destruct (ReadAll_chunks (nopCloser r) st _ Hv) as (st' & HR & _).
  exists st'. unfold GetStringBody, bind. simpl. rewrite HR. simpl.
  unfold stringOfBytes, bytesOfString. by rewrite string_of_list_byte_of_string.
Qed.

Lemma GetStringBody_of_string_sample :
  boundedSource pongState (ptrStringsReader 3) (bytesOfString "pong")
  /\ exists st',
    GetStringBody {| StatusCode := 200; Response_Body := nopCloser (ptrStringsReader 3) |}
      pongState
    = Ret ("pong", None) st'.
Proof.
  assert (Hsrc : boundedSource pongState (ptrStringsReader 3) (bytesOfString "pong")).
  { apply (bounded_StringsReader pongState 3%positive "pong" 0).
    vm_compute. reflexivity. }
  split; [exact Hsrc|].
  exact (GetStringBody_of_string 200 (ptrStringsReader 3) "pong" pongState Hsrc).
Defined.

(** ** The pairs a form body holds *)

Lemma pairsOf_unordered v : pairsOf v ≡ₚ pairsUnordered v.
Proof.
  unfold pairsOf, pairsUnordered.
  rewrite sortedKeys_perm, list_fmap_bind.
  assert (Hall : Forall (fun kv => v !! kv.1 = Some kv.2) (map_to_list v)).
  { apply Forall_forall. intros [k xs] Hin. by apply elem_of_map_to_list. }
  induction Hall as [|[k xs] l Hk _ IH]; [done|].
  rewrite !bind_cons. simpl in *. rewrite Hk. simpl. by rewrite IH.
Qed.

Lemma pairsUnordered_insert (v : Values) k xs :
  pairsUnordered (<[k := xs]> v)
  ≡ₚ ((fun x => (k, x)) <$> xs) ++ pairsUnordered (delete k v).
Proof.
  unfold pairsUnordered. rewrite <- insert_delete_eq.
  rewrite map_to_list_insert by apply lookup_delete_eq.
  by rewrite bind_cons.
Qed.

Lemma pairsUnordered_Add (v : Values) k x :
  pairsUnordered (Values_Add k x v) ≡ₚ pairsUnordered v ++ [(k, x)].
Proof.
  unfold Values_Add. rewrite pairsUnordered_insert.
  destruct (v !! k) as [xs|] eqn:Hk; simpl.
  - rewrite <- (insert_id v k xs Hk) at 2. rewrite pairsUnordered_insert.
    rewrite fmap_app. simpl. rewrite <- !app_assoc.
    apply Permutation_app_head, Permutation_app_comm.
  - rewrite (delete_id v k Hk). apply (Permutation_app_comm [(k, x)]).
Qed.

Lemma pairsOf_ofPairs_perm ps : pairsOf (ofPairs ps) ≡ₚ ps.
Proof.
  rewrite pairsOf_unordered.
  induction ps as [|[k x] ps IH] using rev_ind; [done|].
  rewrite ofPairs_snoc, pairsUnordered_Add. simpl. by rewrite IH.
Qed.

(** X13.  The pairs [SetFormBody] writes for the form data a caller built by
    adding pairs are the caller's pairs, each as often as it was added: the
    encoded body joins a rearrangement of them, none lost and none added. *)
Theorem Encode_writes_every_pair ps :
  pairsOf (ofPairs ps) ≡ₚ ps
  /\ Encode (ofPairs ps) = String.concat "&" (escapedPair <$> pairsOf (ofPairs ps)).
Proof. split; [apply pairsOf_ofPairs_perm|apply Encode_concat]. Qed.

Lemma list_ascii_app (a b : string) :
  list_ascii_of_string (a +:+ b) = list_ascii_of_string a ++ list_ascii_of_string b.
Proof.
  induction a as [|c a IH]; [done|].
  rewrite string_app_cons. simpl. by rewrite IH.
Qed.

Lemma countByte_app c (a b : string) :
  countByte c (a +:+ b) = (countByte c a + countByte c b)%nat.
Proof.
  induction a as [|x a IH]; [done|].
  rewrite string_app_cons. simpl. rewrite IH. lia.
Qed.

Lemma QueryEscape_byte c :
  forallb escapedByte
    (list_ascii_of_string
       (if Ascii.eqb c " " then "+"
        else if shouldEscape c then
          String "%" (String (upperhex (code c / 16))
                        (String (upperhex (code c mod 16)) ""))
        else String c "")) = true.
Proof.
  destruct c as [[] [] [] [] [] [] [] []]; vm_compute; reflexivity.
Qed.

Lemma QueryEscape_escaped s :
  Forall (fun x => escapedByte x = true) (list_ascii_of_string (QueryEscape s)).
Proof.
  induction s as [|c s IH]; [constructor|].
  cbn [QueryEscape]. rewrite list_ascii_app. apply Forall_app. split; [|done].
  apply Forall_forall. intros x Hx. apply list_elem_of_In in Hx.
  exact (proj1 (forallb_forall _ _) (QueryEscape_byte c) x Hx).
Qed.

Lemma countByte_escaped c s :
  escapedByte c = false ->
  Forall (fun x => escapedByte x = true) (list_ascii_of_string s) ->
  countByte c s = 0%nat.
Proof.
  intros Hc. induction s as [|x s IH]; [done|]. simpl.
  intros Hall. apply Forall_cons in Hall as [Hx Hs]. rewrite (IH Hs).
  destruct (Ascii.eqb_spec x c) as [->|_]; [congruence|done].
Qed.

Lemma countByte_escapedPair p :
  countByte "=" (escapedPair p) = 1%nat /\ countByte "&" (escapedPair p) = 0%nat.
Proof.
  unfold escapedPair. rewrite !countByte_app.
  rewrite (countByte_escaped "=" (QueryEscape p.1)),
    (countByte_escaped "=" (QueryEscape p.2)),
    (countByte_escaped "&" (QueryEscape p.1)),
    (countByte_escaped "&" (QueryEscape p.2));
    try apply QueryEscape_escaped; try reflexivity.
  by split.
Qed.

Lemma countByte_joined qs :
  countByte "=" (String.concat "&" (escapedPair <$> qs)) = length qs
  /\ countByte "&" (String.concat "&" (escapedPair <$> qs)) = pred (length qs).
Proof.
  induction qs as [|q qs IH]; [done|].
  destruct (countByte_escapedPair q) as [He Ha].
  destruct qs as [|q' qs]; [by simpl|].
  destruct IH as [IHe IHa].
  change (String.concat "&" (escapedPair <$> q :: q' :: qs))
    with (escapedPair q +:+ "&" +:+ String.concat "&" (escapedPair <$> q' :: qs)).
  rewrite !countByte_app, He, Ha, IHe, IHa. simpl. lia.
Qed.

(** X14.  Escaping keeps the separators of a form body apart from its
    content: the body written for the pairs a caller added contains one [=]
    for each pair and one [&] between two pairs, whatever bytes the keys and
    values hold. *)
Theorem Encode_separators ps :
  countByte "=" (Encode (ofPairs ps)) = length ps
  /\ countByte "&" (Encode (ofPairs ps)) = pred (length ps).
Proof.
  rewrite Encode_concat, <- (Permutation_length (pairsOf_ofPairs_perm ps)).
  apply countByte_joined.
Qed.

(** X15.  [SetFormBody] with empty form data, on a request with a header
    map, still sets [Content-Type] to [application/x-www-form-urlencoded]
    and leaves the request with [http.NoBody] and a content length of 0. *)
Theorem SetFormBody_empty req h m st :
  Header req = Some h -> headers st !! h = Some m ->
  exists req' st',
    SetFormBody ∅ req st = Ret req' st'
    /\ Body req' = NoBody /\ ContentLength req' = 0%Z
    /\ Header_Get (Header req') "Content-Type" st'
       = Ret "application/x-www-form-urlencoded" st'.
Proof.
  intros Hh Hm.
  destruct (Header_Set_Get h m "Content-Type" "application/x-www-form-urlencoded" st Hm)
    as (st1 & HS & Hh1 & _).
  pose proof (alloc_bounded_StringsReader "" st1) as Hsrc. simpl in Hsrc.
  destruct (SetBody_bounded _ _ _ req Hsrc)
    as (req' & f & HSB & HCL & _ & _ & HB & HH & _).
  eexists req', _. split.
  { unfold SetFormBody, bind. rewrite Hh, HS.
    unfold strings_NewReader, bind, allocReader, ret.
    change (Encode ∅) with "". by rewrite HSB. }
  split; [exact HB|]. split; [exact HCL|].
  rewrite HH, Hh. eapply Header_Get_lookup.
  - simpl. rewrite Hh1. apply lookup_insert_eq.
  - apply lookup_insert_eq.
Qed.

Lemma SetFormBody_empty_sample :
  Header sampleRequest = Some 1%positive
  /\ headers sampleState !! 1%positive = Some ∅
  /\ exists req' st',
    SetFormBody ∅ sampleRequest sampleState = Ret req' st'
    /\ Body req' = NoBody /\ ContentLength req' = 0%Z
    /\ Header_Get (Header req') "Content-Type" st'
       = Ret "application/x-www-form-urlencoded" st'.
Proof.
  assert (H2 : Header sampleRequest = Some 1%positive) by reflexivity.
  assert (H3 : headers sampleState !! 1%positive = Some (∅ : http_Header))
    by (vm_compute; reflexivity).
  split; [exact H2|]. split; [exact H3|].
  exact (SetFormBody_empty _ _ _ _ H2 H3).
Defined.

(** ** Options and bodies at construction *)

Section Construction.
Context `{Library}.

(** X16.  The option [BaseURL] has no effect: [NewClient] builds the same
    client whatever it holds, and the URL of a request [NewRequest] builds
    is the parse of the [url] argument alone. *)
Theorem BaseURL_has_no_effect o b c method url body st req st' :
  NewClient (Some o) = Some c ->
  NewClient (Some (withBaseURL b o)) = Some c
  /\ (NewRequest c method url body st = Ret (Some req, None) st' ->
      url_Parse url = inl (URL_ req)).
Proof.
  intros Hc. split; [exact Hc|].
  intros HN. by apply NewRequest_result in HN as (_ & HU & _).
Qed.

(** X17.  For a streaming body [NewRequest] returns a request of content
    length 0 and without body factory, the stream being its body; [SetBody]
    with the same stream then changes the content length to -1. *)
Theorem NewRequest_stream_length c method url body u st :
  validMethod (if String.eqb method "" then "GET" else method) = true ->
  url_Parse url = inl u -> oneShot body = true ->
  exists req st',
    NewRequest c method url body st = Ret (Some req, None) st'
    /\ ContentLength req = 0%Z /\ GetBody req = None
    /\ Body req = asReadCloser body
    /\ SetBody body req st'
       = Ret (with_ContentLength (-1) req) st'.
Proof.
  intros Hm Hu Hone.
  unfold NewRequest, http_NewRequest, bind. rewrite Hm, Hu. simpl.
  assert (Hnil : isNil body = false) by (by destruct body).
  rewrite Hnil.
  assert (Hinf : forall other r s, inferLength body other r s = Ret (other r) s)
    by (by destruct body).
  rewrite Hinf. simpl.
  eexists _, _. split; [reflexivity|]. repeat split.
  rewrite SetBody_default by done. reflexivity.
Qed.

End Construction.

Lemma BaseURL_has_no_effect_sample :
  exists c req st',
    NewClient (Some (optionsWithTimeout 5)) = Some c
    /\ NewClient (Some (withBaseURL "http://api.example.com" (optionsWithTimeout 5)))
       = Some c
    /\ @NewRequest stubLibrary c "GET" "/users" nilReader sampleState
       = Ret (Some req, None) st'
    /\ stub_Parse "/users" = inl (URL_ req).
Proof.
  eexists _, _, _.
  match goal with
  | |- ?A /\ _ => assert (Hc : A) by reflexivity
  end.
  split; [exact Hc|].
  match goal with
  | |- _ /\ ?A /\ _ => assert (HN : A) by (vm_compute; reflexivity)
  end.
  split.
  { exact (proj1 (@BaseURL_has_no_effect stubLibrary _ "http://api.example.com" _
                    "GET" "/users" nilReader sampleState sampleRequest sampleState Hc)). }
  split; [exact HN|].
  exact (proj2 (@BaseURL_has_no_effect stubLibrary _ "http://api.example.com" _
                  "GET" "/users" nilReader sampleState _ _ Hc) HN).
Defined.

Lemma NewRequest_stream_length_sample :
  exists req st',
    @NewRequest stubLibrary sampleClient "POST" "http://example.com/"
      (otherReader 2 true) sampleState
    = Ret (Some req, None) st'
    /\ ContentLength req = 0%Z /\ GetBody req = None
    /\ Body req = asReadCloser (otherReader 2 true)
    /\ SetBody (otherReader 2 true) req st' = Ret (with_ContentLength (-1) req) st'.
Proof.
  exact (@NewRequest_stream_length stubLibrary sampleClient "POST"
           "http://example.com/" (otherReader 2 true) _ sampleState
           eq_refl eq_refl eq_refl).
Defined.

Section SameBody.
Context `{Library}.

(** X18.  For an in-memory body, [NewRequest] infers content length, body
    and factory as [SetBody] does: [SetBody] with the body the request was
    built with returns the request unchanged, and the content length is the
    number of bytes the source holds. *)
Theorem SetBody_with_construction_body_is_noop c method url body content st req st' :
  boundedSource st body content ->
  NewRequest c method url body st = Ret (Some req, None) st' ->
  SetBody body req st' = Ret req st'
  /\ ContentLength req = Z.of_nat (length content).
Proof.
  intros Hsrc. unfold NewRequest, http_NewRequest, bind.
  destruct (validMethod _); simpl; [|done].
  destruct (url_Parse url) as [u|e]; simpl; [|done].
  assert (Hnil : isNil body = false) by (by destruct Hsrc).
  rewrite Hnil. unfold SetBody.
  assert (Hrc : asReadCloser body = nopCloser body) by (by destruct Hsrc).
  rewrite Hrc. simpl isNil. cbv iota.
  destruct Hsrc as [l buf off Hl|l s i Hl|l s i Hl];
    unfold inferLength, Buffer_Len, Buffer_Bytes, BytesReader_Len,
      StringsReader_Len, bind, ret, getReader; simpl; rewrite !Hl; simpl;
    rewrite ?Hl; simpl.
  - rewrite length_drop.
    destruct (Z.of_nat (length buf - off) =? 0)%Z eqn:Hz; simpl;
      intros [= <- <-]; simpl;
      repeat (progress (rewrite ?Hl, ?Hz; simpl)); by split.
  - rewrite length_drop.
    assert (Hn : (if (length s <=? i)%nat then 0%nat else (length s - i)%nat)
                 = (length s - i)%nat).
    { destruct (Nat.leb_spec (length s) i); lia. }
    rewrite Hn.
    destruct (Z.of_nat (length s - i) =? 0)%Z eqn:Hz; simpl;
      intros [= <- <-]; simpl;
      repeat (progress (rewrite ?Hl, ?Hn, ?Hz; simpl)); by split.
  - rewrite length_drop, length_bytesOfString.
    assert (Hn : (if (String.length s <=? i)%nat then 0%nat
                  else (String.length s - i)%nat) = (String.length s - i)%nat).
    { destruct (Nat.leb_spec (String.length s) i); lia. }
    rewrite Hn.
    destruct (Z.of_nat (String.length s - i) =? 0)%Z eqn:Hz; simpl;
      intros [= <- <-]; simpl;
      repeat (progress (rewrite ?Hl, ?Hn, ?Hz; simpl)); by split.
Qed.

End SameBody.

Lemma SetBody_with_construction_body_is_noop_sample :
  boundedSource sampleState (ptrBuffer 1) (drop 1 (bytesOfString "hello"))
  /\ exists req st',
    @NewRequest stubLibrary sampleClient "POST" "http://example.com/" (ptrBuffer 1)
      sampleState
    = Ret (Some req, None) st'
    /\ SetBody (ptrBuffer 1) req st' = Ret req st'
    /\ ContentLength req = Z.of_nat (length (drop 1 (bytesOfString "hello"))).
Proof.
  assert (Hsrc : boundedSource sampleState (ptrBuffer 1)
                   (drop 1 (bytesOfString "hello"))).
  { apply (bounded_Buffer sampleState 1%positive (bytesOfString "hello") 1).
    vm_compute. reflexivity. }
  split; [exact Hsrc|]. eexists _, _.
  match goal with
  | |- ?A /\ _ => assert (HN : A) by (vm_compute; reflexivity)
  end.
  split; [exact HN|].
  exact (@SetBody_with_construction_body_is_noop stubLibrary _ _ _ _ _ _ _ _ Hsrc HN).
Defined.
